(** * Voice Interaction Controller ([static/script.js])

    A shallow embedding of the page script that wires speech recognition,
    speech synthesis and four buttons to the [/ask], [/reset] and [/logout]
    endpoints, followed by the properties of its functions.

    Conventions of the model.
    - A JavaScript string is a Rocq [string] holding its UTF-8 bytes.
    - The page is a flat map from element ids to elements; an element reference
      is the id it was found under.
    - The script's two module-level variables, the document, the recognizer
      objects constructed so far, the speech-synthesis queue and the page
      location make up the [world].  What the script asks of the browser
      (alerts, console output, network requests, recognizer and synthesizer
      calls, navigation) is recorded, in order, as a list of [effect]s.
    - [window.speechSynthesis] is taken to exist and its [cancel] and [speak]
      not to throw.
    - An [async] function runs until it returns, throws, or reaches an
      [await]; at an [await] it hands back the continuation that the settled
      promise resumes.  Other handlers may run in between. *)

From stdpp Require Import gmap strings list fin_maps pretty.
From Stdlib Require Import ZArith Ascii String.

#[local] Set Warnings "-register-all".

Local Open Scope string_scope.
Local Open Scope list_scope.

(** ** JavaScript values *)

(** The values that [JSON.parse] can produce, and [undefined].  Numbers are
    restricted to integers: [JNum z] is the double that the literal [z] parses
    to.  An object lists its own properties; keys are distinct after
    [JSON.parse]. *)
Inductive jsval : Type :=
| JUndefined
| JNull
| JBool (b : bool)
| JNum (z : Z)
| JStr (s : string)
| JArr (items : list jsval)
| JObj (props : list (string * jsval)).

(** ToBoolean: [undefined], [null], [false], [0] and [""] are falsy. *)
Definition truthy (v : jsval) : bool :=
  match v with
  | JUndefined | JNull => false
  | JBool b => b
  | JNum z => negb (z =? 0)%Z
  | JStr s => negb (String.eqb s "")
  | JArr _ | JObj _ => true
  end.

Fixpoint join_with (sep : string) (l : list string) : string :=
  match l with
  | [] => ""
  | [s] => s
  | s :: rest => s ++ sep ++ join_with sep rest
  end.

(** *** Number::toString *)

(** The IEEE 754 double nearest to the positive integer [n], ties to even;
    [None] when that is [Infinity]. *)
Definition round_double (n : Z) : option Z :=
  (let e := Z.log2 n - 52 in
   if e <=? 0 then Some n else
   let q := Z.shiftr n e in
   let r := n - Z.shiftl q e in
   let half := Z.shiftl 1 (e - 1) in
   let q' := if (half <? r) || ((r =? half) && Z.odd q) then q + 1 else q in
   let v := Z.shiftl q' e in
   if 2 ^ 1024 <=? v then None else Some v)%Z.

Definition decimal_digits (n : Z) : Z := Z.of_nat (String.length (pretty n)).

(** The decimal with [k] significant digits that stands for the positive
    double [x], if there is one: of the two multiples of [10^(D-k)] around [x]
    ([D] the number of digits of [x]), one that converts back to [x]; the
    closer one if both do, the even one on a tie. *)
Definition with_digits (x : Z) (k : Z) : option Z :=
  (let p := 10 ^ Z.max (decimal_digits x - k) 0 in
   let s1 := x / p in
   let v1 := s1 * p in
   let v2 := (s1 + 1) * p in
   let ok v := match round_double v with Some y => y =? x | None => false end in
   match ok v1, ok v2 with
   | true, true =>
       if x - v1 <? v2 - x then Some v1
       else if v2 - x <? x - v1 then Some v2
       else if Z.even s1 then Some v1 else Some v2
   | true, false => Some v1
   | false, true => Some v2
   | false, false => None
   end)%Z.

(** The decimal with the fewest significant digits that stands for [x];
    seventeen digits always suffice. *)
Definition shortest_decimal (x : Z) : Z :=
  match omap (with_digits x) (map Z.of_nat (seq 1 17)) with
  | v :: _ => v
  | [] => x
  end.

Fixpoint strip_zeros (fuel : nat) (v : Z) : Z :=
  match fuel with
  | O => v
  | S f => if ((v mod 10 =? 0) && negb (v =? 0))%Z then strip_zeros f (v / 10)%Z else v
  end.

(** Number::toString of the double that the integer literal [z] parses to:
    the shortest decimal, written out below [10^21] and in exponent notation
    from there on. *)
Definition Number_toString (z : Z) : string :=
  let positive (n : Z) : string :=
    match round_double n with
    | None => "Infinity"
    | Some x =>
        let v := shortest_decimal x in
        if (v <? 10 ^ 21)%Z then pretty v
        else
          let digits := pretty (strip_zeros (Z.to_nat (decimal_digits v)) v) in
          let exponent := pretty (decimal_digits v - 1)%Z in
          match digits with
          | String d "" => String d "" +:+ "e+" +:+ exponent
          | String d rest => String d ("." +:+ rest) +:+ "e+" +:+ exponent
          | "" => ""
          end
    end in
  if (z =? 0)%Z then "0"
  else if (z <? 0)%Z then "-" +:+ positive (- z)%Z
  else positive z.

(** *** ToString *)

Definition has_own (key : string) (props : list (string * jsval)) : bool :=
  existsb (fun kv => String.eqb (fst kv) key) props.

(** ToString throws a [TypeError] for an object with an own [toString]
    property (after [JSON.parse] that property is not callable, and neither it
    nor [valueOf] yields a primitive), and for an array with such an item. *)
Fixpoint ToString_throws (v : jsval) : bool :=
  match v with
  | JObj props => has_own "toString" props
  | JArr items =>
      (fix any (l : list jsval) : bool :=
         match l with
         | [] => false
         | x :: r => ToString_throws x || any r
         end) items
  | _ => false
  end.

(** The string that ToString returns when it does not throw.  An array joins
    its items with commas, holes for [null] and [undefined]; an object without
    an own [toString] prints as [[object Object]]. *)
Fixpoint ToString (v : jsval) : string :=
  match v with
  | JUndefined => "undefined"
  | JNull => "null"
  | JBool true => "true"
  | JBool false => "false"
  | JNum z => Number_toString z
  | JStr s => s
  | JArr items =>
      join_with ","
        ((fix each (l : list jsval) : list string :=
            match l with
            | [] => []
            | JUndefined :: r | JNull :: r => "" :: each r
            | x :: r => ToString x :: each r
            end) items)
  | JObj _ => "[object Object]"
  end.

(** [a || b] *)
Definition js_or (a b : jsval) : jsval := if truthy a then a else b.

Fixpoint own_property (key : string) (props : list (string * jsval)) : jsval :=
  match props with
  | [] => JUndefined
  | (k, v) :: rest => if String.eqb k key then v else own_property key rest
  end.

(** ** [String.prototype.trim] *)

Definition utf8 (bytes : list nat) : string :=
  fold_right (fun b s => String (ascii_of_nat b) s) "" bytes.

(** WhiteSpace and LineTerminator code points of ECMAScript, UTF-8 encoded:
    TAB, LF, VT, FF, CR, SP, NBSP, U+1680, U+2000..U+200A, U+2028, U+2029,
    U+202F, U+205F, U+3000 and U+FEFF. *)
Definition js_whitespace : list string :=
  map utf8
    ([ [9]; [10]; [11]; [12]; [13]; [32]; [194; 160]; [225; 154; 128] ]
     ++ map (fun b => [226; 128; b]) (seq 128 11)
     ++ [ [226; 128; 168]; [226; 128; 169]; [226; 128; 175]; [226; 129; 159];
          [227; 128; 128]; [239; 187; 191] ]).

Fixpoint drop_prefix (p s : string) : option string :=
  match p, s with
  | EmptyString, _ => Some s
  | String a p', String b s' => if Ascii.eqb a b then drop_prefix p' s' else None
  | String _ _, EmptyString => None
  end.

Fixpoint drop_first_of (ps : list string) (s : string) : option string :=
  match ps with
  | [] => None
  | p :: rest =>
      match drop_prefix p s with
      | Some s' => Some s'
      | None => drop_first_of rest s
      end
  end.

Fixpoint strip_leading (ps : list string) (fuel : nat) (s : string) : string :=
  match fuel with
  | O => s
  | S fuel' =>
      match drop_first_of ps s with
      | Some s' => strip_leading ps fuel' s'
      | None => s
      end
  end.

Definition string_rev (s : string) : string :=
  string_of_list_ascii (rev (list_ascii_of_string s)).

Definition trimStart (s : string) : string :=
  strip_leading js_whitespace (String.length s) s.

Definition trimEnd (s : string) : string :=
  string_rev (strip_leading (map string_rev js_whitespace) (String.length s) (string_rev s)).

Definition trim (s : string) : string := trimEnd (trimStart s).

(** ** The page *)

(** The functions that the script attaches as click listeners. *)
Inductive listener := LstartRecognition | LstopAll | LresetUI | Llogout.

#[global] Instance listener_eq_dec : EqDecision listener.
Proof. solve_decision. Defined.

Record element := Element {
  textContent : string;
  value : string;
  click_listeners : list listener
}.

Definition with_textContent (s : string) (e : element) : element :=
  {| textContent := s; value := value e; click_listeners := click_listeners e |}.

Definition with_value (s : string) (e : element) : element :=
  {| textContent := textContent e; value := s; click_listeners := click_listeners e |}.

(** [addEventListener] ignores a listener that is already registered. *)
Definition with_listener (f : listener) (e : element) : element :=
  {| textContent := textContent e; value := value e;
     click_listeners :=
       if bool_decide (f ∈ click_listeners e) then click_listeners e
       else click_listeners e ++ [f] |}.

(** ** Recognizer objects *)

Inductive rec_ctor := StandardCtor | WebkitCtor.

Inductive rec_handler := Onstart | Onresult | Onerror | Onend.

#[global] Instance rec_handler_eq_dec : EqDecision rec_handler.
Proof. solve_decision. Defined.

Record recognizer := Recognizer {
  rec_ctor_of : rec_ctor;
  lang : string;
  interimResults : bool;
  maxAlternatives : Z;
  handlers : list rec_handler
}.

(** A recognizer as its constructor leaves it. *)
Definition fresh_recognizer (c : rec_ctor) : recognizer :=
  {| rec_ctor_of := c; lang := ""; interimResults := false; maxAlternatives := 1%Z;
     handlers := [] |}.

Definition with_lang (l : string) (r : recognizer) : recognizer :=
  {| rec_ctor_of := rec_ctor_of r; lang := l; interimResults := interimResults r;
     maxAlternatives := maxAlternatives r; handlers := handlers r |}.

Definition with_interimResults (b : bool) (r : recognizer) : recognizer :=
  {| rec_ctor_of := rec_ctor_of r; lang := lang r; interimResults := b;
     maxAlternatives := maxAlternatives r; handlers := handlers r |}.

Definition with_maxAlternatives (n : Z) (r : recognizer) : recognizer :=
  {| rec_ctor_of := rec_ctor_of r; lang := lang r; interimResults := interimResults r;
     maxAlternatives := n; handlers := handlers r |}.

Definition with_handler (h : rec_handler) (r : recognizer) : recognizer :=
  {| rec_ctor_of := rec_ctor_of r; lang := lang r; interimResults := interimResults r;
     maxAlternatives := maxAlternatives r;
     handlers := if bool_decide (h ∈ handlers r) then handlers r else handlers r ++ [h] |}.

(** ** Speech synthesis, network, exceptions *)

Record utterance := Utterance { utt_text : string; rate : Z }.

Record request := Request {
  url : string;
  method : string;
  headers : list (string * string);
  body : option jsval   (* the value handed to [JSON.stringify] *)
}.

(** A response; [json_body] is [None] when the body is not JSON. *)
Record response := Response { status : Z; json_body : option jsval }.

Inductive exn :=
| TypeError
| SyntaxError
| InvalidStateError
| NetworkError.

(** What a promise can be fulfilled with. *)
Inductive fulfilment :=
| VJs (j : jsval)
| VResponse (r : response).

Inductive settlement :=
| Fulfilled (v : fulfilment)
| Rejected (e : exn).

Inductive awaited :=
| AFetch (req : request)
| AJson (r : response).

(** ** State and effects *)

Record world := World {
  recognition : option nat;     (* [let recognition], a reference into [sessions] *)
  listening : bool;             (* [let listening] *)
  document : gmap string element;
  sessions : list recognizer;   (* every recognizer constructed so far *)
  speech_queue : list utterance;
  location_href : string
}.

Definition with_recognition (r : option nat) (w : world) : world :=
  {| recognition := r; listening := listening w; document := document w;
     sessions := sessions w; speech_queue := speech_queue w;
     location_href := location_href w |}.

Definition with_listening (b : bool) (w : world) : world :=
  {| recognition := recognition w; listening := b; document := document w;
     sessions := sessions w; speech_queue := speech_queue w;
     location_href := location_href w |}.

Definition with_document (d : gmap string element) (w : world) : world :=
  {| recognition := recognition w; listening := listening w; document := d;
     sessions := sessions w; speech_queue := speech_queue w;
     location_href := location_href w |}.

Definition with_sessions (l : list recognizer) (w : world) : world :=
  {| recognition := recognition w; listening := listening w; document := document w;
     sessions := l; speech_queue := speech_queue w;
     location_href := location_href w |}.

Definition with_speech_queue (q : list utterance) (w : world) : world :=
  {| recognition := recognition w; listening := listening w; document := document w;
     sessions := sessions w; speech_queue := q;
     location_href := location_href w |}.

Definition with_location_href (h : string) (w : world) : world :=
  {| recognition := recognition w; listening := listening w; document := document w;
     sessions := sessions w; speech_queue := speech_queue w;
     location_href := h |}.

Inductive effect :=
| EAlert (msg : string)
| EConsoleError (msg : string) (detail : string)
| EConsoleWarn (e : exn)
| ESynthCancel
| ESynthSpeak (u : utterance)
| ENewRecognizer (c : rec_ctor) (s : nat)
| ERecStart (s : nat)
| ERecStop (s : nat)
| EFetch (req : request)
| ENavigate (target : string)
| EUncaught (e : exn).

(** ** Computations *)

(** A piece of script run from some world stops in one of three ways; the
    continuation of an [Await] is run when the awaited promise settles. *)
Inductive run (A : Type) : Type :=
| Return (a : A)
| Throw (e : exn)
| Await (p : awaited) (k : settlement -> world -> outcome A)
with outcome (A : Type) : Type :=
| Out (r : run A) (w : world) (log : list effect).

Arguments Return {A} a.
Arguments Throw {A} e.
Arguments Await {A} p k.
Arguments Out {A} r w log.

Definition M (A : Type) : Type := world -> outcome A.

Definition out_run {A} (o : outcome A) : run A := let 'Out r _ _ := o in r.
Definition out_world {A} (o : outcome A) : world := let 'Out _ w _ := o in w.
Definition out_log {A} (o : outcome A) : list effect := let 'Out _ _ l := o in l.

Definition prepend {A} (l : list effect) (o : outcome A) : outcome A :=
  let 'Out r w l' := o in Out r w (l ++ l').

Definition ret {A} (a : A) : M A := fun w => Out (Return a) w [].
Definition throw {A} (e : exn) : M A := fun w => Out (Throw e) w [].

Fixpoint bind_run {A B} (r : run A) (f : A -> M B) (w : world) : outcome B :=
  match r with
  | Return a => f a w
  | Throw e => Out (Throw e) w []
  | Await p k => Out (Await p (fun s w' => bind_outcome (k s w') f)) w []
  end
with bind_outcome {A B} (o : outcome A) (f : A -> M B) : outcome B :=
  match o with
  | Out r w l => prepend l (bind_run r f w)
  end.

Definition bind {A B} (m : M A) (f : A -> M B) : M B :=
  fun w => bind_outcome (m w) f.

(** [try { m } catch (e) { h e }] *)
Fixpoint catch_run {A} (r : run A) (h : exn -> M A) (w : world) : outcome A :=
  match r with
  | Return a => Out (Return a) w []
  | Throw e => h e w
  | Await p k => Out (Await p (fun s w' => catch_outcome (k s w') h)) w []
  end
with catch_outcome {A} (o : outcome A) (h : exn -> M A) : outcome A :=
  match o with
  | Out r w l => prepend l (catch_run r h w)
  end.

Definition try_catch {A} (m : M A) (h : exn -> M A) : M A :=
  fun w => catch_outcome (m w) h.

Declare Scope script_scope.
Delimit Scope script_scope with script.
Bind Scope script_scope with M.
Notation "x ← y ; z" := (bind y (fun x => z))
  (at level 20, y at level 100, z at level 200, only parsing) : script_scope.
Notation "x ;; z" := (bind x (fun _ => z))
  (at level 100, z at level 200, only parsing, right associativity) : script_scope.
Local Open Scope script_scope.

Definition gets {A} (f : world -> A) : M A := fun w => Out (Return (f w)) w [].
Definition modify (f : world -> world) : M unit := fun w => Out (Return tt) (f w) [].
Definition emit (e : effect) : M unit := fun w => Out (Return tt) w [e].

(** [await p]: suspend; resume with the fulfilled value or throw the
    rejection reason. *)
Definition await (p : awaited) : M fulfilment :=
  fun w =>
    Out (Await p (fun s w' =>
           match s with
           | Fulfilled v => Out (Return v) w' []
           | Rejected e => Out (Throw e) w' []
           end)) w [].

(** ** The browser *)

(** What the script cannot see into: which recognition constructors [window]
    has, and whether [stop()] on a given recognizer throws. *)
Record browser := Browser {
  has_webkitSpeechRecognition : bool;
  has_SpeechRecognition : bool;
  stop_throws : nat -> bool
}.

Record alternative := Alternative { transcript : string }.

(** A recognition result event: [event.results[i][j]]. *)
Record result_event := ResultEvent { results : list (list alternative) }.

(** ** DOM and browser primitives *)

(** [document.getElementById(id)]: a reference, or [None] for [null]. *)
Definition getElementById (id : string) : M (option string) :=
  gets (fun w => match document w !! id with Some _ => Some id | None => None end).

Definition update_element (f : element -> element) (ref : string) : M unit :=
  modify (fun w => with_document (alter f ref (document w)) w).

Definition set_textContent (ref : string) (s : string) : M unit :=
  update_element (with_textContent s) ref.

Definition set_value (ref : string) (s : string) : M unit :=
  update_element (with_value s) ref.

Definition get_value (ref : string) : M string :=
  gets (fun w => match document w !! ref with Some e => value e | None => "" end).

Definition addEventListener (ref : string) (f : listener) : M unit :=
  update_element (with_listener f) ref.

(** A property write through a reference that may be [null]. *)
Definition deref {A} (o : option A) : M A :=
  match o with
  | Some a => ret a
  | None => throw TypeError
  end.

Definition speechSynthesis_cancel : M unit :=
  emit ESynthCancel;;
  modify (with_speech_queue []).

Definition speechSynthesis_speak (u : utterance) : M unit :=
  emit (ESynthSpeak u);;
  modify (fun w => with_speech_queue (speech_queue w ++ [u]) w).

(** The utterance that [new SpeechSynthesisUtterance(text)] builds; the
    default rate is 1. *)
Definition SpeechSynthesisUtterance (text : jsval) : utterance :=
  {| utt_text := ToString text; rate := 1 |}.

(** [new SpeechSynthesisUtterance(text)]: the argument is converted to a
    string, which may throw. *)
Definition new_SpeechSynthesisUtterance (text : jsval) : M utterance :=
  if ToString_throws text then throw TypeError else ret (SpeechSynthesisUtterance text).

(** [element.value = v] on a text field: [null] becomes the empty string;
    any other value is converted to a string, which may throw, and stored. *)
Definition assign_value (ref : string) (v : jsval) : M unit :=
  match v with
  | JNull => set_value ref ""
  | _ => if ToString_throws v then throw TypeError else set_value ref (ToString v)
  end.

Definition with_rate (r : Z) (u : utterance) : utterance :=
  {| utt_text := utt_text u; rate := r |}.

Definition alert (msg : string) : M unit := emit (EAlert msg).

(** [fetch(url, init)]: the request leaves at once; the promise is awaited. *)
Definition fetch (req : request) : M fulfilment :=
  emit (EFetch req);;
  await (AFetch req).

(** [res.json()], awaited. *)
Definition json (res : fulfilment) : M fulfilment :=
  match res with
  | VResponse r => await (AJson r)
  | VJs _ => throw TypeError
  end.

(** [out.reply]: reading a property of [null] or [undefined] throws; a
    value without that property yields [undefined]. *)
Definition get_property (out : fulfilment) (key : string) : M jsval :=
  match out with
  | VJs JNull | VJs JUndefined => throw TypeError
  | VJs (JObj props) => ret (own_property key props)
  | VJs _ | VResponse _ => ret JUndefined
  end.

(** [new Rec()] *)
Definition new_recognizer (c : rec_ctor) : M nat :=
  s ← gets (fun w => List.length (sessions w));
  modify (fun w => with_sessions (sessions w ++ [fresh_recognizer c]) w);;
  emit (ENewRecognizer c s);;
  ret s.

(** [recognition.p = v]: a write through the module variable. *)
Definition update_recognition (f : recognizer -> recognizer) : M unit :=
  r ← gets recognition;
  s ← deref r;
  modify (fun w => with_sessions (alter f s (sessions w)) w).

(** ** The script *)

Definition listening_label : string := "Listening... 🎧".
Definition idle_label : string := "Start Listening 🎤".
Definition unsupported_message : string :=
  "Speech recognition not supported in this browser. Use Chrome (desktop or mobile).".
Definition fallback_reply : string :=
  "I didn't catch that. Try asking about leave balance, booking meeting rooms, or 'show policies'.".

Definition initial_world (page : gmap string element) (href : string) : world :=
  {| recognition := None; listening := false; document := page; sessions := [];
     speech_queue := []; location_href := href |}.

Definition speak (text : jsval) : M unit :=
  if negb (truthy text) then ret tt else
  speechSynthesis_cancel;;
  u ← new_SpeechSynthesisUtterance text;
  let u := with_rate 1 u in
  speechSynthesis_speak u.

(** [recognition.onstart] *)
Definition onstart : M unit :=
  modify (with_listening true);;
  btn ← getElementById "micBtn";
  match btn with
  | Some b => set_textContent b listening_label
  | None => ret tt
  end.

Definition ask_request (text email : string) : request :=
  {| url := "/ask"; method := "POST";
     headers := [("Content-Type", "application/json")];
     body := Some (JObj [("message", JStr text); ("email", JStr email)]) |}.

(** [recognition.onresult] *)
Definition onresult (event : result_event) : M unit :=
  r0 ← deref (results event !! 0);
  a0 ← deref (r0 !! 0);
  let text := transcript a0 in
  userText ← getElementById "userText";
  u ← deref userText;
  set_value u text;;
  emailField ← getElementById "emailField";
  email ← match emailField with
          | Some e => v ← get_value e; ret (trim v)
          | None => ret ""
          end;
  res ← fetch (ask_request text email);
  out ← json res;
  r ← get_property out "reply";
  let reply := js_or r (JStr fallback_reply) in
  botText ← getElementById "botText";
  b ← deref botText;
  assign_value b reply;;
  speak reply.

(** [recognition.onerror] *)
Definition onerror (e : string) : M unit :=
  emit (EConsoleError "Recognition error" e);;
  modify (with_listening false);;
  btn ← getElementById "micBtn";
  match btn with
  | Some b => set_textContent b idle_label
  | None => ret tt
  end.

(** [recognition.onend] *)
Definition onend : M unit :=
  modify (with_listening false);;
  btn ← getElementById "micBtn";
  match btn with
  | Some b => set_textContent b idle_label
  | None => ret tt
  end.

Section Script.

Variable br : browser.

(** [recognition.start()] *)
Definition recognition_start : M unit :=
  r ← gets recognition;
  s ← deref r;
  emit (ERecStart s).

(** [recognition.stop()] *)
Definition recognition_stop : M unit :=
  r ← gets recognition;
  s ← deref r;
  if stop_throws br s then throw InvalidStateError else emit (ERecStop s).

Definition startRecognition : M unit :=
  l ← gets listening;
  if l then ret tt else
  if negb (has_webkitSpeechRecognition br) && negb (has_SpeechRecognition br) then
    alert unsupported_message
  else
  let Rec := if has_SpeechRecognition br then StandardCtor else WebkitCtor in
  s ← new_recognizer Rec;
  modify (with_recognition (Some s));;
  update_recognition (with_lang "en-US");;
  update_recognition (with_interimResults false);;
  update_recognition (with_maxAlternatives 1);;
  update_recognition (with_handler Onstart);;
  update_recognition (with_handler Onresult);;
  update_recognition (with_handler Onerror);;
  update_recognition (with_handler Onend);;
  recognition_start.

Definition stopAll : M unit :=
  r ← gets recognition;
  match r with
  | Some _ =>
      try_catch recognition_stop (fun e => emit (EConsoleWarn e));;
      modify (with_recognition None)
  | None => ret tt
  end;;
  speechSynthesis_cancel;;
  modify (with_listening false);;
  btn ← getElementById "micBtn";
  match btn with
  | Some b => set_textContent b idle_label
  | None => ret tt
  end.

Definition resetUI : M unit :=
  stopAll;;
  u ← getElementById "userText";
  b ← getElementById "botText";
  match u with Some u => set_value u "" | None => ret tt end;;
  match b with Some b => set_value b "" | None => ret tt end;;
  _ ← fetch {| url := "/reset"; method := "POST"; headers := []; body := None |};
  ret tt.

Definition logout : M unit :=
  _ ← fetch {| url := "/logout"; method := "GET"; headers := []; body := None |};
  emit (ENavigate "/login");;
  modify (with_location_href "/login").

(** The [DOMContentLoaded] listener. *)
Definition on_DOMContentLoaded : M unit :=
  micBtn ← getElementById "micBtn";
  match micBtn with Some e => addEventListener e LstartRecognition | None => ret tt end;;
  stopBtn ← getElementById "stopBtn";
  match stopBtn with Some e => addEventListener e LstopAll | None => ret tt end;;
  resetBtn ← getElementById "resetBtn";
  match resetBtn with Some e => addEventListener e LresetUI | None => ret tt end;;
  logoutBtn ← getElementById "logoutBtn";
  match logoutBtn with Some e => addEventListener e Llogout | None => ret tt end.

End Script.

(** ** Settling promises *)

(** How a [fetch] ends. *)
Inductive fetch_outcome :=
| Responds (r : response)   (* any HTTP status *)
| Fails (e : exn)           (* the promise rejects *)
| Hangs.                    (* the promise never settles *)

(** The settlement of an awaited promise: a [fetch] settles as the network
    decides, [res.json()] as the body of the response decides. *)
Definition settle_with (o : fetch_outcome) (p : awaited) : option settlement :=
  match p with
  | AFetch _ =>
      match o with
      | Responds r => Some (Fulfilled (VResponse r))
      | Fails e => Some (Rejected e)
      | Hangs => None
      end
  | AJson r =>
      match json_body r with
      | Some j => Some (Fulfilled (VJs j))
      | None => Some (Rejected SyntaxError)
      end
  end.

Definition outcome_for (net : request -> fetch_outcome) (p : awaited) : fetch_outcome :=
  match p with
  | AFetch req => net req
  | AJson _ => Hangs
  end.

(** Run a computation with nothing else interleaved: every promise it awaits
    is settled as [net] says, until it returns, throws, or waits for a promise
    that never settles. *)
Fixpoint complete_run {A} (net : request -> fetch_outcome) (r : run A) (w : world)
  : outcome A :=
  match r with
  | Return a => Out (Return a) w []
  | Throw e => Out (Throw e) w []
  | Await p k =>
      match settle_with (outcome_for net p) p with
      | Some s => complete_outcome net (k s w)
      | None => Out (Await p k) w []
      end
  end
with complete_outcome {A} (net : request -> fetch_outcome) (o : outcome A) : outcome A :=
  match o with
  | Out r w l => prepend l (complete_run net r w)
  end.

Definition complete {A} (net : request -> fetch_outcome) (m : M A) : M A :=
  fun w => complete_outcome net (m w).

(** ** The event loop *)

Definition task : Type := awaited * (settlement -> world -> outcome unit).

Record config := Config {
  cfg_world : world;
  pending : list task;       (* suspended [async] calls *)
  trace : list effect
}.

(** Run a handler as a task of its own.  An exception or a rejection that
    escapes is reported and goes no further. *)
Definition absorb (pend : list task) (tr : list effect) (o : outcome unit) : config :=
  match o with
  | Out (Return _) w l => Config w pend (tr ++ l)
  | Out (Throw e) w l => Config w pend (tr ++ l ++ [EUncaught e])
  | Out (Await p k) w l => Config w (pend ++ [(p, k)]) (tr ++ l)
  end.

Definition spawn (m : M unit) (c : config) : config :=
  absorb (pending c) (trace c) (m (cfg_world c)).

Inductive rec_event :=
| Started
| Result (ev : result_event)
| Errored (e : string)
| Ended.

Definition handler_of (h : rec_event) : rec_handler :=
  match h with
  | Started => Onstart
  | Result _ => Onresult
  | Errored _ => Onerror
  | Ended => Onend
  end.

Definition run_handler (h : rec_event) : M unit :=
  match h with
  | Started => onstart
  | Result ev => onresult ev
  | Errored e => onerror e
  | Ended => onend
  end.

Inductive event :=
| DOMContentLoaded
| Click (id : string)
| Recognition (s : nat) (h : rec_event)
| Settle (i : nat) (o : fetch_outcome).

Section Loop.

Variable br : browser.

Definition run_listener (f : listener) : M unit :=
  match f with
  | LstartRecognition => startRecognition br
  | LstopAll => stopAll br
  | LresetUI => resetUI br
  | Llogout => logout
  end.

Definition step (c : config) (e : event) : config :=
  match e with
  | DOMContentLoaded => spawn on_DOMContentLoaded c
  | Click id =>
      match document (cfg_world c) !! id with
      | Some el => foldl (fun c f => spawn (run_listener f) c) c (click_listeners el)
      | None => c
      end
  | Recognition s h =>
      (* the browser fires an event on an existing recognizer; the handler
         stored in the matching property runs *)
      match sessions (cfg_world c) !! s with
      | Some r => if bool_decide (handler_of h ∈ handlers r) then spawn (run_handler h) c else c
      | None => c
      end
  | Settle i o =>
      match pending c !! i with
      | Some (p, k) =>
          match settle_with o p with
          | Some s => absorb (delete i (pending c)) (trace c) (k s (cfg_world c))
          | None => c
          end
      | None => c
      end
  end.

Definition steps (c : config) (es : list event) : config := foldl step c es.

Definition boot (page : gmap string element) (href : string) : config :=
  Config (initial_world page href) [] [].

(** The worlds the page can be in. *)
Definition reachable (w : world) : Prop :=
  exists page href es, cfg_world (steps (boot page href) es) = w.

End Loop.

(** ** Vocabulary of the statements *)

(** The world that [stopAll] leaves. *)
Definition stopped (w : world) : world :=
  {| recognition := None; listening := false;
     document := alter (with_textContent idle_label) "micBtn" (document w);
     sessions := sessions w; speech_queue := []; location_href := location_href w |}.

(** What [stopAll] asks of the browser. *)
Definition stop_effects (br : browser) (w : world) : list effect :=
  match recognition w with
  | Some s => [if stop_throws br s then EConsoleWarn InvalidStateError else ERecStop s]
  | None => []
  end ++ [ESynthCancel].

(** The world after both text fields, where present, are emptied. *)
Definition cleared (w : world) : world :=
  with_document
    (alter (with_value "") "botText" (alter (with_value "") "userText" (document w))) w.

Definition reset_request : request :=
  {| url := "/reset"; method := "POST"; headers := []; body := None |}.

Definition logout_request : request :=
  {| url := "/logout"; method := "GET"; headers := []; body := None |}.

(** The requests among a list of effects, in order. *)
Definition fetches (l : list effect) : list request :=
  omap (fun e => match e with EFetch r => Some r | _ => None end) l.

Definition awaits {A} (p : awaited) (r : run A) : Prop :=
  match r with
  | Await p' _ => p' = p
  | _ => False
  end.

(** [out.reply] for a parsed body that is neither [null] nor [undefined]. *)
Definition reply_of (out : jsval) : jsval :=
  match out with
  | JObj props => own_property "reply" props
  | _ => JUndefined
  end.

Definition nullish (v : jsval) : bool :=
  match v with
  | JUndefined | JNull => true
  | _ => false
  end.

(** The utterance that [speak] builds. *)
Definition spoken (text : jsval) : utterance := {| utt_text := ToString text; rate := 1 |}.

(** ** A sample page, browsers and events *)

Definition blank : element := {| textContent := ""; value := ""; click_listeners := [] |}.

Definition sample_page : gmap string element :=
  list_to_map
    [("micBtn", blank); ("stopBtn", blank); ("resetBtn", blank); ("logoutBtn", blank);
     ("userText", blank); ("botText", blank);
     ("emailField", {| textContent := ""; value := "  ana@example.org "; click_listeners := [] |})].

(** The sample page without its [userText] field. *)
Definition page_without_userText : gmap string element := delete "userText" sample_page.

(** A browser with the prefixed constructor only, whose [stop()] never throws. *)
Definition chrome : browser :=
  {| has_webkitSpeechRecognition := true; has_SpeechRecognition := false;
     stop_throws := fun _ => false |}.

(** A browser with no speech recognition. *)
Definition no_recognition : browser :=
  {| has_webkitSpeechRecognition := false; has_SpeechRecognition := false;
     stop_throws := fun _ => false |}.

Definition book_a_room : result_event :=
  {| results := [[ {| transcript := "book a room" |} ]] |}.

Definition sample_world : world := initial_world sample_page "/".

(** The sample page after a click on the microphone button and the
    recognizer's [start] event. *)
Definition listening_world : world :=
  cfg_world (steps chrome (boot sample_page "/")
               [DOMContentLoaded; Click "micBtn"; Recognition 0 Started]).

(** ... and after the recognizer's [end] event. *)
Definition ended_world : world :=
  cfg_world (steps chrome (boot sample_page "/")
               [DOMContentLoaded; Click "micBtn"; Recognition 0 Started; Recognition 0 Ended]).

Definition replies (out : jsval) : request -> fetch_outcome :=
  fun _ => Responds {| status := 200; json_body := Some out |}.

Definition network_down : request -> fetch_outcome := fun _ => Fails NetworkError.

Definition network_silent : request -> fetch_outcome := fun _ => Hangs.

(** ** Invariants of suspended computations *)

(** [run_keeps I r]: whenever [r] is resumed in a world satisfying [I], it
    stops in a world satisfying [I], and so on for every later resumption. *)
Fixpoint run_keeps {A} (I : world -> Prop) (r : run A) : Prop :=
  match r with
  | Return _ | Throw _ => True
  | Await _ k => forall s w, I w -> outcome_keeps I (k s w)
  end
with outcome_keeps {A} (I : world -> Prop) (o : outcome A) : Prop :=
  match o with
  | Out r w _ => I w /\ run_keeps I r
  end.

Definition keeps {A} (I : world -> Prop) (m : M A) : Prop :=
  forall w, I w -> outcome_keeps I (m w).

Definition task_keeps (I : world -> Prop) (t : task) : Prop :=
  forall s w, I w -> outcome_keeps I (t.2 s w).

Definition config_keeps (I : world -> Prop) (c : config) : Prop :=
  I (cfg_world c) /\ Forall (task_keeps I) (pending c).

(** No recognizer was ever constructed and the flag is down. *)
Definition never_started (w : world) : Prop :=
  listening w = false /\ sessions w = [].

(** ** Vocabulary of the further properties *)

(** A recognizer as [startRecognition] configures it. *)
Definition configured (c : rec_ctor) : recognizer :=
  {| rec_ctor_of := c; lang := "en-US"; interimResults := false; maxAlternatives := 1%Z;
     handlers := [Onstart; Onresult; Onerror; Onend] |}.

(** The constructor that [window.SpeechRecognition || window.webkitSpeechRecognition]
    picks. *)
Definition chosen_ctor (br : browser) : rec_ctor :=
  if has_SpeechRecognition br then StandardCtor else WebkitCtor.

(** The browser has a recognition constructor. *)
Definition supported (br : browser) : bool :=
  has_webkitSpeechRecognition br || has_SpeechRecognition br.

(** Every recognizer is configured and the session reference is in range. *)
Definition sessions_well_formed (w : world) : Prop :=
  Forall (fun r => exists c, r = configured c) (sessions w) /\
  forall s, recognition w = Some s -> s < List.length (sessions w).

(** While [listening] is true the microphone button shows the listening label. *)
Definition label_follows_flag (w : world) : Prop :=
  listening w = true ->
  forall e, document w !! "micBtn" = Some e -> textContent e = listening_label.

(** At most one utterance is queued. *)
Definition one_utterance (w : world) : Prop := List.length (speech_queue w) <= 1.

(** The page is where it was loaded or at [/login]. *)
Definition here_or_login (href : string) (w : world) : Prop :=
  location_href w = href \/ location_href w = "/login".

(** The function that the script attaches to a button id. *)
Definition button_function (id : string) : option listener :=
  if String.eqb id "micBtn" then Some LstartRecognition
  else if String.eqb id "stopBtn" then Some LstopAll
  else if String.eqb id "resetBtn" then Some LresetUI
  else if String.eqb id "logoutBtn" then Some Llogout
  else None.

(** The page after the [DOMContentLoaded] listener has run. *)
Definition wired (d : gmap string element) : gmap string element :=
  alter (with_listener Llogout) "logoutBtn"
    (alter (with_listener LresetUI) "resetBtn"
       (alter (with_listener LstopAll) "stopBtn"
          (alter (with_listener LstartRecognition) "micBtn" d))).

(** What the wiring does to the element of a given id. *)
Definition wire (id : string) (e : element) : element :=
  match button_function id with
  | Some f => with_listener f e
  | None => e
  end.

(** The exception that an exchange with the backend ends in, if any: a
    rejected request, a body that is not JSON, or a [null] body. *)
Definition exchange_failure (o : fetch_outcome) : option exn :=
  match o with
  | Fails e => Some e
  | Responds resp =>
      match json_body resp with
      | None => Some SyntaxError
      | Some out => if nullish out then Some TypeError else None
      end
  | Hangs => None
  end.

(** The [email] that the result handler reads off the page. *)
Definition email_of (w : world) : string :=
  match document w !! "emailField" with
  | Some e => trim (value e)
  | None => ""
  end.

(** What the result handler leaves alone. *)
Definition controller_as_in (w0 w : world) : Prop :=
  recognition w = recognition w0 /\
  listening w = listening w0 /\
  sessions w = sessions w0 /\
  location_href w = location_href w0 /\
  (forall id, textContent <$> (document w !! id) = textContent <$> (document w0 !! id)) /\
  (forall id, click_listeners <$> (document w !! id)
              = click_listeners <$> (document w0 !! id)).

(** The string begins, or ends, with a white-space or line-terminator
    character. *)
Definition starts_with_whitespace (s : string) : bool :=
  match drop_first_of js_whitespace s with Some _ => true | None => false end.

Definition ends_with_whitespace (s : string) : bool :=
  match drop_first_of (map string_rev js_whitespace) (string_rev s) with
  | Some _ => true
  | None => false
  end.

(** A browser whose [stop()] always throws. *)
Definition stubborn : browser :=
  {| has_webkitSpeechRecognition := true; has_SpeechRecognition := true;
     stop_throws := fun _ => true |}.

(** [run_emits P r]: every effect that [r] has, now and on every later
    resumption, satisfies [P]. *)
Fixpoint run_emits {A} (P : effect -> Prop) (r : run A) : Prop :=
  match r with
  | Return _ | Throw _ => True
  | Await _ k => forall s w, outcome_emits P (k s w)
  end
with outcome_emits {A} (P : effect -> Prop) (o : outcome A) : Prop :=
  match o with
  | Out r _ l => Forall P l /\ run_emits P r
  end.

Definition emits {A} (P : effect -> Prop) (m : M A) : Prop :=
  forall w, outcome_emits P (m w).

Definition config_emits (P : effect -> Prop) (c : config) : Prop :=
  Forall P (trace c) /\
  Forall (fun t : task => forall s w, outcome_emits P (t.2 s w)) (pending c).

(** The effects the script can have in browser [br]. *)
Definition documented (br : browser) (e : effect) : Prop :=
  match e with
  | EAlert msg => supported br = false /\ msg = unsupported_message
  | EConsoleError msg _ => msg = "Recognition error"
  | ESynthSpeak u => rate u = 1%Z
  | ENewRecognizer c _ => supported br = true /\ c = chosen_ctor br
  | EFetch r =>
      r = reset_request \/ r = logout_request \/
      exists text email, r = ask_request text email
  | ENavigate target => target = "/login"
  | EConsoleWarn _ | ESynthCancel | ERecStart _ | ERecStop _ | EUncaught _ => True
  end.

(** The sample page after a whole turn: click, start, result, answer. *)
Definition answered_world : world :=
  cfg_world (steps chrome (boot sample_page "/")
               [DOMContentLoaded; Click "micBtn"; Recognition 0 Started;
                Recognition 0 (Result book_a_room);
                Settle 0 (replies (JObj [("reply", JStr "Room booked")])
                            (ask_request "book a room" "ana@example.org"));
                Settle 0 Hangs]).

(** * Properties *)

(** ** The model on concrete inputs *)

Example trim_email : trim "  ana@example.org " = "ana@example.org".
Proof. reflexivity. Qed.

Example trim_unicode_space :
  trim (utf8 [194; 160] ++ "a b" ++ utf8 [226; 128; 168; 10]) = "a b".
Proof. reflexivity. Qed.

Example ToString_array :
  ToString (JArr [JNum 1; JNull; JStr "a"; JArr [JNum (-3)]]) = "1,,a,-3".
Proof. reflexivity. Qed.

Example Number_toString_values :
  map Number_toString
    [0; 123; -3; 120; 2 ^ 53; 2 ^ 53 + 1; 2 ^ 53 + 3; 2 ^ 60; - 2 ^ 60;
     10 ^ 21 - 1; 10 ^ 21; 10 ^ 23; 123456789012345678901234567890; 2 ^ 1024]%Z
  = ["0"; "123"; "-3"; "120"; "9007199254740992"; "9007199254740992";
     "9007199254740996"; "1152921504606847000"; "-1152921504606847000";
     "1e+21"; "1e+21"; "1e+23"; "1.2345678901234568e+29"; "Infinity"].
Proof. vm_compute. reflexivity. Qed.

Example ToString_throws_values :
  map ToString_throws
    [JObj [("toString", JStr "x")]; JObj [("a", JNum 1); ("toString", JNull)];
     JArr [JNum 1; JObj [("toString", JNum 0)]]; JObj [("valueOf", JNum 1)];
     JObj []; JArr [JNull; JArr []]; JStr "toString"; JNull]
  = [true; true; true; false; false; false; false; false].
Proof. reflexivity. Qed.

Example ToString_plain_object :
  ToString (JObj [("valueOf", JNum 1)]) = "[object Object]".
Proof. reflexivity. Qed.

Example falsy_values :
  map truthy [JUndefined; JNull; JBool false; JNum 0; JStr ""; JStr "0"; JArr []]
    = [false; false; false; false; false; true; true].
Proof. reflexivity. Qed.

(** A whole turn on the sample page: click, start, result, answer, end. *)
Example one_turn :
  let c :=
    steps chrome (boot sample_page "/")
      [DOMContentLoaded; Click "micBtn"; Recognition 0 Started;
       Recognition 0 (Result book_a_room);
       Settle 0 (Responds {| status := 200;
                             json_body := Some (JObj [("reply", JStr "Room booked")]) |});
       Settle 0 Hangs; Recognition 0 Ended] in
  trace c =
    [ENewRecognizer WebkitCtor 0; ERecStart 0;
     EFetch (ask_request "book a room" "ana@example.org");
     ESynthCancel; ESynthSpeak {| utt_text := "Room booked"; rate := 1 |}] /\
  pending c = [] /\
  textContent <$> (document (cfg_world c) !! "micBtn") = Some idle_label /\
  value <$> (document (cfg_world c) !! "userText") = Some "book a room" /\
  value <$> (document (cfg_world c) !! "botText") = Some "Room booked".
Proof. vm_compute. by repeat split. Qed.

(** The flag rises with the [start] event, not with the call: a second click
    before that event constructs a second recognizer. *)
Example second_click_before_start_event :
  let c := steps chrome (boot sample_page "/")
             [DOMContentLoaded; Click "micBtn"; Click "micBtn"] in
  List.length (sessions (cfg_world c)) = 2 /\ recognition (cfg_world c) = Some 1.
Proof. vm_compute. by split. Qed.

(** Without the [botText] field the handler throws after the answer has
    arrived; nothing is spoken. *)
Example onresult_without_botText :
  let w := initial_world (delete "botText" sample_page) "/" in
  let o := complete (replies (JObj [("reply", JStr "Room booked")]))
             (onresult book_a_room) w in
  out_run o = Throw TypeError /\
  fetches (out_log o) = [ask_request "book a room" "ana@example.org"] /\
  speech_queue (out_world o) = [].
Proof. vm_compute. by repeat split. Qed.

(** A reply without a string form: the write to [botText] throws, nothing is
    displayed or spoken. *)
Example onresult_unconvertible_reply :
  let o := complete (replies (JObj [("reply", JObj [("toString", JStr "x")])]))
             (onresult book_a_room) sample_world in
  out_run o = Throw TypeError /\
  value <$> (document (out_world o) !! "botText") = Some "" /\
  speech_queue (out_world o) = [] /\
  out_log o = [EFetch (ask_request "book a room" "ana@example.org")].
Proof. vm_compute. by repeat split. Qed.

(** A large number is displayed as JavaScript prints it. *)
Example onresult_large_number :
  let o := complete (replies (JObj [("reply", JNum (2 ^ 60))]))
             (onresult book_a_room) sample_world in
  value <$> (document (out_world o) !! "botText") = Some "1152921504606847000" /\
  speech_queue (out_world o) = [ {| utt_text := "1152921504606847000"; rate := 1 |} ].
Proof. vm_compute. by repeat split. Qed.

(** The wiring skips the buttons the page lacks. *)
Example wiring_on_empty_page :
  on_DOMContentLoaded (initial_world ∅ "/") = Out (Return tt) (initial_world ∅ "/") [].
Proof. reflexivity. Qed.

(** ** Symbolic execution *)

Ltac unfold_prims :=
  unfold new_SpeechSynthesisUtterance,
    getElementById, set_textContent, set_value, get_value, addEventListener,
    update_element, speechSynthesis_cancel, speechSynthesis_speak, alert, fetch,
    update_recognition, new_recognizer, recognition_start, recognition_stop,
    deref, await, gets, modify, emit, ret, throw, try_catch, bind in *.

Ltac exec := unfold_prims; cbn.

(** [alter] at an id the page lacks leaves the page as it is. *)
Lemma alter_absent (f : element -> element) (id : string) (d : gmap string element) :
  d !! id = None -> alter f id d = d.
Proof. apply alter_id'. Qed.

Lemma alter_same (f : element -> element) (id : string) (d : gmap string element) :
  (forall e, f (f e) = f e) -> alter f id (alter f id d) = alter f id d.
Proof.
  intros Hf. apply map_eq. intros j.
  destruct (decide (id = j)) as [<-|Hj].
  - rewrite !lookup_alter_eq. destruct (d !! id) as [e|]; cbn; [by rewrite Hf|done].
  - by rewrite !lookup_alter_ne.
Qed.

Lemma stopAll_run br w :
  stopAll br w = Out (Return tt) (stopped w) (stop_effects br w).
Proof.
  unfold stopAll, stop_effects, stopped. exec.
  destruct w as [r l d ss q h]; cbn.
  destruct r as [s|]; cbn; [destruct (stop_throws br s); cbn|];
    (destruct (d !! "micBtn") eqn:Hm; cbn; [done | by rewrite alter_absent]).
Qed.

Lemma alter_with_value_lookup (s id id' : string) (d : gmap string element) :
  value <$> (alter (with_textContent s) id d !! id') = value <$> (d !! id').
Proof.
  destruct (decide (id = id')) as [<-|Hne].
  - rewrite lookup_alter_eq. by destruct (d !! id).
  - by rewrite lookup_alter_ne.
Qed.

(** ** [speak] *)

(** C8.  [speak] does nothing for a falsy text (no cancellation, no
    utterance); for any other text it cancels the speech queue and then
    enqueues exactly one utterance of that text at rate 1, which leaves that
    utterance alone in the queue.  A truthy value without a string form, which
    no text is, makes the utterance constructor throw once the queue has been
    cancelled. *)
Theorem speak_cancels_then_enqueues_one (text : jsval) (w : world) :
  speak text w =
    if truthy text
    then if ToString_throws text
         then Out (Throw TypeError) (with_speech_queue [] w) [ESynthCancel]
         else Out (Return tt) (with_speech_queue [spoken text] w)
                [ESynthCancel; ESynthSpeak (spoken text)]
    else Out (Return tt) w [].
Proof.
  unfold speak, new_SpeechSynthesisUtterance.
  destruct (truthy text); cbn; [|done].
  destruct (ToString_throws text); exec; by destruct w.
Qed.

(** ** [startRecognition] *)

(** C2, as the script has it.  A call to [startRecognition] made while
    [listening] is true returns at once: no recognizer is constructed, nothing
    is asked of the browser and the whole state (session reference, flag, page)
    is as before.  So a click on the wired microphone button while [listening]
    is true changes nothing: not the state, not the suspended requests, not
    the log. *)
Theorem startRecognition_while_listening (br : browser) (w : world) :
  listening w = true ->
  startRecognition br w = Out (Return tt) w [] /\
  forall (pend : list task) (tr : list effect) (e : element),
    document w !! "micBtn" = Some e ->
    click_listeners e = [LstartRecognition] ->
    step br (Config w pend tr) (Click "micBtn") = Config w pend tr.
Proof.
  intros Hl.
  assert (Hrun : startRecognition br w = Out (Return tt) w []).
  { unfold startRecognition. exec. by rewrite Hl. }
  split; [exact Hrun|].
  intros pend tr e He Hfs. unfold step. cbn [cfg_world]. rewrite He, Hfs.
  cbn [foldl]. unfold spawn, run_listener. cbn [cfg_world pending trace].
  rewrite Hrun. cbn. by rewrite app_nil_r.
Qed.

Lemma startRecognition_while_listening_witness :
  listening listening_world = true /\
  startRecognition chrome listening_world = Out (Return tt) listening_world [] /\
  step chrome (Config listening_world [] []) (Click "micBtn")
    = Config listening_world [] [].
Proof.
  split; [reflexivity|].
  destruct (startRecognition_while_listening chrome listening_world eq_refl)
    as [Hrun Hclick].
  split; [exact Hrun|].
  apply (Hclick [] []
           {| textContent := listening_label; value := "";
              click_listeners := [LstartRecognition] |});
    reflexivity.
Defined.

(** C2 as claimed fails: the flag rises with the [start] event, so a second
    click before that event constructs and starts a second recognizer while
    the first is neither stopped nor ended; both then deliver their events. *)
Lemma two_sessions_before_start_event :
  let c := steps chrome (boot sample_page "/")
             [DOMContentLoaded; Click "micBtn"; Click "micBtn"] in
  trace c =
    [ENewRecognizer WebkitCtor 0; ERecStart 0; ENewRecognizer WebkitCtor 1; ERecStart 1] /\
  List.length (sessions (cfg_world c)) = 2 /\
  ~ List.length (sessions (cfg_world c)) <= 1.
Proof. vm_compute. repeat split. lia. Qed.

(** ** [stopAll] *)

(** C3.  [stopAll] returns normally from every state, with or without a
    session, whether or not [stop()] throws.  Afterwards the session reference
    is null, [listening] is false and the microphone button, if the page has
    one, shows the idle label; a second call returns normally too and leaves
    that state exactly as it is. *)
Theorem stopAll_total_idempotent (br : browser) (w : world) :
  exists w' l,
    stopAll br w = Out (Return tt) w' l /\
    recognition w' = None /\
    listening w' = false /\
    textContent <$> (document w' !! "micBtn")
      = (fun _ => idle_label) <$> (document w !! "micBtn") /\
    stopAll br w' = Out (Return tt) w' [ESynthCancel].
Proof.
  exists (stopped w), (stop_effects br w).
  split; [apply stopAll_run|].
  repeat split.
  - cbn. rewrite lookup_alter_eq. by destruct (document w !! "micBtn").
  - rewrite stopAll_run. unfold stopped, stop_effects; cbn.
    by rewrite alter_same.
Qed.

(** C10.  [stopAll] leaves the [value] of every element as it was, the
    user-text and bot-text fields among them; the recognizers and the page
    location are untouched as well. *)
Theorem stopAll_keeps_text_fields (br : browser) (w : world) :
  let w' := out_world (stopAll br w) in
  value <$> (document w' !! "userText") = value <$> (document w !! "userText") /\
  value <$> (document w' !! "botText") = value <$> (document w !! "botText") /\
  (forall id, value <$> (document w' !! id) = value <$> (document w !! id)) /\
  sessions w' = sessions w /\
  location_href w' = location_href w.
Proof.
  rewrite stopAll_run. cbn.
  repeat split; intros; apply alter_with_value_lookup.
Qed.

(** ** Invariants *)

Section Keeps.

Context (I : world -> Prop).

Lemma prepend_keeps {A} (l : list effect) (o : outcome A) :
  outcome_keeps I o -> outcome_keeps I (prepend l o).
Proof. by destruct o. Qed.

Lemma bind_run_keeps {A B} (f : A -> M B) (Hf : forall a, keeps I (f a))
    (r : run A) :
  forall w, I w -> run_keeps I r -> outcome_keeps I (bind_run r f w)
with bind_outcome_keeps {A B} (f : A -> M B) (Hf : forall a, keeps I (f a))
    (o : outcome A) :
  outcome_keeps I o -> outcome_keeps I (bind_outcome o f).
Proof.
  - destruct r as [a|e|p k]; intros w Hw Hr; cbn.
    + by apply Hf.
    + done.
    + split; [done|]. intros s w' Hw'.
      apply bind_outcome_keeps; [done|]. by apply Hr.
  - destruct o as [r w l]; intros [Hw Hr]; cbn.
    apply prepend_keeps. by apply bind_run_keeps.
Qed.

Lemma bind_keeps {A B} (m : M A) (f : A -> M B) :
  keeps I m -> (forall a, keeps I (f a)) -> keeps I (bind m f).
Proof. intros Hm Hf w Hw. apply bind_outcome_keeps; [done|]. by apply Hm. Qed.

Lemma catch_run_keeps {A} (h : exn -> M A) (Hh : forall e, keeps I (h e))
    (r : run A) :
  forall w, I w -> run_keeps I r -> outcome_keeps I (catch_run r h w)
with catch_outcome_keeps {A} (h : exn -> M A) (Hh : forall e, keeps I (h e))
    (o : outcome A) :
  outcome_keeps I o -> outcome_keeps I (catch_outcome o h).
Proof.
  - destruct r as [a|e|p k]; intros w Hw Hr; cbn.
    + done.
    + by apply Hh.
    + split; [done|]. intros s w' Hw'.
      apply catch_outcome_keeps; [done|]. by apply Hr.
  - destruct o as [r w l]; intros [Hw Hr]; cbn.
    apply prepend_keeps. by apply catch_run_keeps.
Qed.

Lemma try_catch_keeps {A} (m : M A) (h : exn -> M A) :
  keeps I m -> (forall e, keeps I (h e)) -> keeps I (try_catch m h).
Proof. intros Hm Hh w Hw. apply catch_outcome_keeps; [done|]. by apply Hm. Qed.

Lemma ret_keeps {A} (a : A) : keeps I (ret a).
Proof. by intros w Hw. Qed.

Lemma throw_keeps {A} (e : exn) : keeps I (throw (A:=A) e).
Proof. by intros w Hw. Qed.

Lemma gets_keeps {A} (f : world -> A) : keeps I (gets f).
Proof. by intros w Hw. Qed.

Lemma emit_keeps (e : effect) : keeps I (emit e).
Proof. by intros w Hw. Qed.

Lemma modify_keeps (f : world -> world) :
  (forall w, I w -> I (f w)) -> keeps I (modify f).
Proof. intros Hf w Hw. split; [by apply Hf|done]. Qed.

Lemma await_keeps (p : awaited) : keeps I (await p).
Proof. intros w Hw. split; [done|]. by intros [v|e] w' Hw'. Qed.

Lemma deref_keeps {A} (o : option A) : keeps I (deref o).
Proof. destruct o; [apply ret_keeps | apply throw_keeps]. Qed.

Lemma absorb_keeps (pend : list task) (tr : list effect) (o : outcome unit) :
  Forall (task_keeps I) pend -> outcome_keeps I o ->
  config_keeps I (absorb pend tr o).
Proof.
  intros Hp. destruct o as [[[]|e|p k] w l]; intros [Hw Hr]; cbn; split; try done.
  apply Forall_app. split; [done|]. by apply Forall_singleton.
Qed.

Lemma spawn_keeps (m : M unit) (c : config) :
  keeps I m -> config_keeps I c -> config_keeps I (spawn m c).
Proof. intros Hm [Hw Hp]. apply absorb_keeps; [done|]. by apply Hm. Qed.

End Keeps.

Ltac unfold_script :=
  unfold assign_value, new_SpeechSynthesisUtterance,
    getElementById, set_textContent, set_value, get_value, addEventListener,
    update_element, speechSynthesis_cancel, speechSynthesis_speak, alert, fetch,
    update_recognition, new_recognizer, recognition_start, recognition_stop.

(** Follows the shape of a computation built from primitives that do not
    touch the fields the invariant reads. *)
Ltac keeps_step :=
  lazymatch goal with
  | |- keeps _ (bind _ _) => apply bind_keeps; [|intros]
  | |- keeps _ (try_catch _ _) => apply try_catch_keeps; [|intros]
  | |- keeps _ (ret _) => apply ret_keeps
  | |- keeps _ (throw _) => apply throw_keeps
  | |- keeps _ (gets _) => apply gets_keeps
  | |- keeps _ (emit _) => apply emit_keeps
  | |- keeps _ (await _) => apply await_keeps
  | |- keeps _ (deref _) => apply deref_keeps
  | |- keeps _ (modify _) => apply modify_keeps; intros ? [? ?]; split; done
  | |- keeps _ (match ?x with _ => _ end) => destruct x
  end.

Ltac keeps_auto := unfold_script; repeat keeps_step.

Lemma stopAll_never_started br : keeps never_started (stopAll br).
Proof. unfold stopAll. keeps_auto. Qed.

Lemma resetUI_never_started br : keeps never_started (resetUI br).
Proof.
  unfold resetUI. apply bind_keeps; [apply stopAll_never_started|intros].
  keeps_auto.
Qed.

Lemma logout_never_started : keeps never_started logout.
Proof. unfold logout. keeps_auto. Qed.

Lemma wiring_never_started : keeps never_started on_DOMContentLoaded.
Proof. unfold on_DOMContentLoaded. keeps_auto. Qed.

Section Unsupported.

Variable br : browser.
Hypothesis no_webkit : has_webkitSpeechRecognition br = false.
Hypothesis no_standard : has_SpeechRecognition br = false.

Lemma startRecognition_alerts (w : world) :
  listening w = false ->
  startRecognition br w = Out (Return tt) w [EAlert unsupported_message].
Proof.
  intros Hl. unfold startRecognition. exec.
  by rewrite Hl, no_webkit, no_standard.
Qed.

Lemma startRecognition_never_started : keeps never_started (startRecognition br).
Proof.
  intros w Hw. rewrite startRecognition_alerts by apply Hw. by split.
Qed.

Lemma run_listener_never_started (f : listener) :
  keeps never_started (run_listener br f).
Proof.
  destruct f; cbn.
  - apply startRecognition_never_started.
  - apply stopAll_never_started.
  - apply resetUI_never_started.
  - apply logout_never_started.
Qed.

Lemma listeners_never_started (fs : list listener) (c : config) :
  config_keeps never_started c ->
  config_keeps never_started (foldl (fun c f => spawn (run_listener br f) c) c fs).
Proof.
  revert c. induction fs as [|f fs IH]; intros c Hc; cbn; [done|].
  apply IH, spawn_keeps; [apply run_listener_never_started|done].
Qed.

Lemma step_never_started (c : config) (e : event) :
  config_keeps never_started c -> config_keeps never_started (step br c e).
Proof.
  intros Hc. destruct e as [|id|s h|i o]; cbn.
  - apply spawn_keeps; [apply wiring_never_started|done].
  - destruct (document (cfg_world c) !! id); [|done].
    by apply listeners_never_started.
  - (* no recognizer exists, so no recognition event is delivered *)
    pose proof Hc as [[_ Hs] _]. by rewrite Hs.
  - destruct (pending c !! i) as [[p k]|] eqn:Hi; [|done].
    destruct (settle_with o p) as [s|]; [|done].
    destruct Hc as [Hw Hp].
    apply absorb_keeps; [by apply Forall_delete|].
    apply (Forall_lookup_1 _ _ _ _ Hp Hi); done.
Qed.

Lemma steps_never_started (es : list event) (c : config) :
  config_keeps never_started c -> config_keeps never_started (steps br c es).
Proof.
  revert c. induction es as [|e es IH]; intros c Hc; cbn; [done|].
  apply IH, step_never_started, Hc.
Qed.

Lemma reachable_never_started (w : world) : reachable br w -> never_started w.
Proof.
  intros (page & href & es & <-).
  apply steps_never_started. split; [by split|constructor].
Qed.

End Unsupported.

(** C6.  In a browser with neither [webkitSpeechRecognition] nor
    [SpeechRecognition], every call to [startRecognition], from any state the
    page can reach, raises the alert exactly once and does nothing else: no
    recognizer is constructed and the state is as before. *)
Theorem startRecognition_unsupported (br : browser) (w : world) :
  has_webkitSpeechRecognition br = false ->
  has_SpeechRecognition br = false ->
  reachable br w ->
  startRecognition br w = Out (Return tt) w [EAlert unsupported_message].
Proof.
  intros Hk Hs Hr. apply startRecognition_alerts; [done..|].
  by destruct (reachable_never_started br Hk Hs w Hr).
Qed.

Lemma startRecognition_unsupported_witness :
  has_webkitSpeechRecognition no_recognition = false /\
  has_SpeechRecognition no_recognition = false /\
  reachable no_recognition sample_world /\
  startRecognition no_recognition sample_world
    = Out (Return tt) sample_world [EAlert unsupported_message].
Proof.
  assert (Hr : reachable no_recognition sample_world).
  { exists sample_page, "/", []. reflexivity. }
  split; [reflexivity|]. split; [reflexivity|]. split; [exact Hr|].
  apply (startRecognition_unsupported no_recognition sample_world);
    [reflexivity | reflexivity | exact Hr].
Defined.

(** ** [resetUI] *)

Lemma resetUI_run (br : browser) (w : world) :
  exists k,
    resetUI br w
      = Out (Await (AFetch reset_request) k) (cleared (stopped w))
            (stop_effects br w ++ [EFetch reset_request]).
Proof.
  unfold resetUI, bind. rewrite stopAll_run. exec. eexists.
  rewrite !lookup_alter_ne by done.
  unfold cleared, reset_request.
  destruct (document w !! "userText") eqn:Hu;
    destruct (document w !! "botText") eqn:Hb; cbn; rewrite ?app_nil_r;
    f_equal.
  - rewrite (alter_absent _ "botText"); [done|]. by rewrite !lookup_alter_ne.
  - rewrite (alter_absent _ "userText"); [done|]. by rewrite !lookup_alter_ne.
  - rewrite (alter_absent _ "userText") by (by rewrite !lookup_alter_ne).
    rewrite (alter_absent _ "botText") by (by rewrite !lookup_alter_ne).
    done.
Qed.

(** C4.  From every state, [resetUI] runs [stopAll], empties the user-text
    and bot-text fields (those the page has) and issues [POST /reset], in this
    order and with no step depending on the one before: when the request
    leaves, the effects of [stopAll] are already in the log and both fields are
    already empty. *)
Theorem resetUI_unconditional_sequence (br : browser) (w : world) :
  let o := resetUI br w in
  out_world o = cleared (out_world (stopAll br w)) /\
  out_log o = out_log (stopAll br w) ++ [EFetch reset_request] /\
  awaits (AFetch reset_request) (out_run o) /\
  value <$> (document (out_world o) !! "userText")
    = (fun _ => "") <$> (document w !! "userText") /\
  value <$> (document (out_world o) !! "botText")
    = (fun _ => "") <$> (document w !! "botText").
Proof.
  destruct (resetUI_run br w) as [k ->]. rewrite stopAll_run. cbn.
  repeat split.
  - rewrite lookup_alter_ne, lookup_alter_eq, lookup_alter_ne by done.
    by destruct (document w !! "userText").
  - rewrite lookup_alter_eq, !lookup_alter_ne by done.
    by destruct (document w !! "botText").
Qed.

(** ** [logout] *)

(** C5, as the script has it.  [logout] issues [GET /logout] and waits for
    it.  Once the request is answered, with whatever status, the page goes to
    [/login]; when the request is rejected, [logout] ends with that rejection
    and the page stays where it is; while the request is unanswered, [logout]
    stays suspended and the page stays where it is. *)
Theorem logout_navigates_once_answered (net : request -> fetch_outcome) (w : world) :
  complete net logout w =
    match net logout_request with
    | Responds _ =>
        Out (Return tt) (with_location_href "/login" w)
            [EFetch logout_request; ENavigate "/login"]
    | Fails e => Out (Throw e) w [EFetch logout_request]
    | Hangs => Out (out_run (logout w)) w [EFetch logout_request]
    end /\
  awaits (AFetch logout_request) (out_run (logout w)).
Proof.
  split; [|done].
  unfold complete, logout. exec. fold logout_request.
  by destruct (net logout_request).
Qed.

(** C5 as claimed fails: with the network down the page is still at [/],
    and no navigation was asked for. *)
Lemma logout_rejected_stays :
  let o := complete network_down logout sample_world in
  out_run o = Throw NetworkError /\
  location_href (out_world o) = "/" /\
  location_href (out_world o) <> "/login" /\
  ENavigate "/login" ∉ out_log o.
Proof.
  cbn. repeat split; [discriminate|].
  intros H. apply list_elem_of_In in H. cbn in H. intuition discriminate.
Qed.

(** The same for a request that is never answered. *)
Lemma logout_unanswered_stays :
  let o := complete network_silent logout sample_world in
  awaits (AFetch logout_request) (out_run o) /\
  location_href (out_world o) = "/" /\
  out_log o = [EFetch logout_request].
Proof. cbn. by repeat split. Qed.

(** ** [recognition.onresult] *)

(** C7 fails in the result handler: on a page without the [userText] field
    the handler throws a [TypeError] at its first write, before any request is
    made; nothing is displayed or spoken. *)
Theorem onresult_without_userText
    (net : request -> fetch_outcome) (ev : result_event)
    (r0 : list alternative) (a0 : alternative) (w : world) :
  results ev !! 0 = Some r0 ->
  r0 !! 0 = Some a0 ->
  document w !! "userText" = None ->
  complete net (onresult ev) w = Out (Throw TypeError) w [].
Proof.
  intros H0 H1 Hu. unfold complete, onresult. exec.
  rewrite H0; cbn. rewrite H1; cbn. by rewrite Hu.
Qed.

Lemma onresult_without_userText_witness :
  results book_a_room !! 0 = Some [ {| transcript := "book a room" |} ] /\
  document (initial_world page_without_userText "/") !! "userText" = None /\
  complete (replies (JObj [("reply", JStr "Room booked")])) (onresult book_a_room)
      (initial_world page_without_userText "/")
    = Out (Throw TypeError) (initial_world page_without_userText "/") [].
Proof.
  split; [reflexivity|]. split; [reflexivity|].
  apply (onresult_without_userText _ book_a_room
           [ {| transcript := "book a room" |} ] {| transcript := "book a room" |});
    reflexivity.
Defined.

(** C1, as the script has it.  For a result event with top transcript [t],
    on a page that has the [userText] field, the handler makes exactly one
    request, [POST /ask] with body [{message: t, email}], where [email] is the
    trimmed value of [emailField] or [""] without that field, whatever the
    network then does.  When the answer parses to a value other than [null]
    and the page has the [botText] field: a [reply] that is a non-empty string
    is written to [botText] and spoken as it is; an absent or falsy [reply]
    (the empty string among them) is replaced by the fallback text. *)
Theorem onresult_exchange
    (net : request -> fetch_outcome) (ev : result_event)
    (r0 : list alternative) (a0 : alternative) (w : world) (uel : element) :
  results ev !! 0 = Some r0 ->
  r0 !! 0 = Some a0 ->
  document w !! "userText" = Some uel ->
  let t := transcript a0 in
  let email :=
    match document w !! "emailField" with
    | Some e => trim (value e)
    | None => ""
    end in
  let req := ask_request t email in
  let o := complete net (onresult ev) w in
  let rendered (text : string) :=
    Out (Return tt)
      (with_speech_queue [ {| utt_text := text; rate := 1 |} ]
         (with_document
            (alter (with_value text) "botText"
               (alter (with_value t) "userText" (document w))) w))
      [EFetch req; ESynthCancel; ESynthSpeak {| utt_text := text; rate := 1 |}] in
  fetches (out_log o) = [req] /\
  forall resp out bel,
    net req = Responds resp ->
    json_body resp = Some out ->
    nullish out = false ->
    document w !! "botText" = Some bel ->
    (forall s, reply_of out = JStr s -> s <> "" -> o = rendered s) /\
    (truthy (reply_of out) = false -> o = rendered fallback_reply).
Proof.
  intros H0 H1 Hu t email req o rendered.
  assert (Hbot : alter (with_value t) "userText" (document w) !! "botText"
                 = document w !! "botText")
    by (by rewrite lookup_alter_ne).
  subst rendered o req email t. unfold complete, onresult. exec.
  rewrite H0; cbn. rewrite H1; cbn. rewrite Hu; cbn.
  rewrite lookup_alter_ne by done.
  destruct (document w !! "emailField") as [e|] eqn:He; cbn;
    [rewrite lookup_alter_ne by done; rewrite He|].
  all: destruct (net _) as [resp|e'|] eqn:Hn; cbn; [|by split..].
  all: destruct (json_body resp) as [out|] eqn:Hj; cbn;
         [|split; [done|intros ??? [= <-]; congruence]].
  all: unfold get_property.
  all: split;
         [|intros resp' out' bel [= <-] Hj' Hnull Hb; rewrite Hj in Hj';
           injection Hj' as <-; rewrite Hb in Hbot].
  all: destruct out as [| |b|z|s|items|props]; try discriminate; cbn.
  all: try done.
  all: rewrite ?Hbot; cbn.
  all: try (destruct (document w !! "botText"); cbn; [|done]).
  all: unfold js_or, speak, new_SpeechSynthesisUtterance; cbn.
  all: try (destruct (own_property "reply" props) as [| |b|z|s|items|ps] eqn:Hr; cbn).
  all: try (destruct (String.eqb_spec s "") as [->|Hne]; cbn).
  all: repeat match goal with
         | |- context [if ?c then _ else _] => destruct c eqn:?; cbn
         end.
  all: exec; try done.
  all: try by destruct w.
  all: split; [intros s' [= <-] Hne'; try done|intros Hf; try discriminate].
  all: try by destruct w.
  all: exfalso; destruct (String.eqb_spec s ""); [done|discriminate].
Qed.

Lemma onresult_exchange_witness :
  let o :=
    complete (replies (JObj [("reply", JStr "Room booked")])) (onresult book_a_room)
      sample_world in
  fetches (out_log o) = [ask_request "book a room" "ana@example.org"] /\
  value <$> (document (out_world o) !! "botText") = Some "Room booked" /\
  speech_queue (out_world o) = [ {| utt_text := "Room booked"; rate := 1 |} ].
Proof.
  destruct (onresult_exchange (replies (JObj [("reply", JStr "Room booked")]))
              book_a_room [ {| transcript := "book a room" |} ]
              {| transcript := "book a room" |} sample_world blank
              eq_refl eq_refl eq_refl) as [Hf Hr].
  split; [exact Hf|].
  destruct (Hr _ _ blank eq_refl eq_refl eq_refl eq_refl) as [Hs _].
  rewrite (Hs "Room booked" eq_refl ltac:(discriminate)).
  split; reflexivity.
Defined.

(** C1 as claimed fails: the answer [{reply: ""}] has a [reply] field, yet
    the bot text is the fallback, not that value. *)
Lemma empty_reply_gets_fallback :
  let out := JObj [("reply", JStr "")] in
  let o := complete (replies out) (onresult book_a_room) sample_world in
  reply_of out = JStr "" /\
  out_run o = Return tt /\
  value <$> (document (out_world o) !! "botText") = Some fallback_reply /\
  value <$> (document (out_world o) !! "botText") <> Some "" /\
  speech_queue (out_world o) = [spoken (JStr fallback_reply)].
Proof. cbn. repeat split. discriminate. Qed.

(** ** The session reference *)

Lemma onend_run (w : world) :
  onend w =
    Out (Return tt)
      (with_document (alter (with_textContent idle_label) "micBtn" (document w))
         (with_listening false w)) [].
Proof.
  unfold onend. exec.
  destruct (document w !! "micBtn") eqn:Hm; cbn; [done|].
  by rewrite alter_absent.
Qed.

Lemma onerror_run (e : string) (w : world) :
  onerror e w =
    Out (Return tt)
      (with_document (alter (with_textContent idle_label) "micBtn" (document w))
         (with_listening false w)) [EConsoleError "Recognition error" e].
Proof.
  unfold onerror. exec.
  destruct (document w !! "micBtn") eqn:Hm; cbn; [done|].
  by rewrite alter_absent.
Qed.

(** C9, as the script has it.  The session reference is null when the page
    loads and after every [stopAll], and then [listening] is false too.  The
    [end] and [error] callbacks only lower [listening]: they leave the session
    reference as it was. *)
Theorem session_reference_cleared_by_stopAll
    (br : browser) (page : gmap string element) (href e : string) (w : world) :
  (recognition (initial_world page href) = None /\
   listening (initial_world page href) = false) /\
  (recognition (out_world (stopAll br w)) = None /\
   listening (out_world (stopAll br w)) = false) /\
  (listening (out_world (onend w)) = false /\
   recognition (out_world (onend w)) = recognition w) /\
  (listening (out_world (onerror e w)) = false /\
   recognition (out_world (onerror e w)) = recognition w).
Proof.
  rewrite stopAll_run, onend_run, onerror_run. cbn. by repeat split.
Qed.

(** C9 as claimed fails: after a click on the microphone button and the
    recognizer's [start] and [end] events, [listening] is false and the session
    reference still points to the recognizer that ended. *)
Lemma idle_with_session_reference :
  reachable chrome ended_world /\
  listening ended_world = false /\
  recognition ended_world = Some 0 /\
  recognition ended_world <> None.
Proof.
  split.
  - exists sample_page, "/",
      [DOMContentLoaded; Click "micBtn"; Recognition 0 Started; Recognition 0 Ended].
    reflexivity.
  - by repeat split.
Qed.

(** * Further properties *)

Lemma alter_last {A} (f : A -> A) (l : list A) (x : A) :
  alter f (List.length l) (l ++ [x]) = l ++ [f x].
Proof.
  replace (List.length l) with (List.length l + 0) by lia.
  by rewrite alter_app_r.
Qed.

Lemma startRecognition_run (br : browser) (w : world) :
  listening w = false ->
  supported br = true ->
  startRecognition br w =
    Out (Return tt)
      (with_sessions (sessions w ++ [configured (chosen_ctor br)])
         (with_recognition (Some (List.length (sessions w))) w))
      [ENewRecognizer (chosen_ctor br) (List.length (sessions w));
       ERecStart (List.length (sessions w))].
Proof.
  intros Hl Hs. unfold startRecognition. exec. rewrite Hl.
  assert (Hc : negb (has_webkitSpeechRecognition br) && negb (has_SpeechRecognition br) = false).
  { unfold supported in Hs. by destruct (has_webkitSpeechRecognition br), (has_SpeechRecognition br). }
  rewrite Hc. cbn. rewrite !alter_last.
  unfold chosen_ctor, configured. by destruct w.
Qed.

(** ** Invariants of the event loop *)

Lemma returns_keeps {A} (I : world -> Prop) (m : M A) (w w' : world) (a : A)
    (l : list effect) :
  m w = Out (Return a) w' l -> I w' -> outcome_keeps I (m w).
Proof. intros -> Hw. by split. Qed.

Lemma complete_run_keeps {A} (I : world -> Prop) (net : request -> fetch_outcome)
    (r : run A) :
  forall w, I w -> run_keeps I r -> outcome_keeps I (complete_run net r w)
with complete_outcome_keeps {A} (I : world -> Prop) (net : request -> fetch_outcome)
    (o : outcome A) :
  outcome_keeps I o -> outcome_keeps I (complete_outcome net o).
Proof.
  - destruct r as [a|e|p k]; intros w Hw Hr; cbn; [done..|].
    destruct (settle_with (outcome_for net p) p) as [s|]; [|done].
    apply complete_outcome_keeps. by apply Hr.
  - destruct o as [r w l]; intros [Hw Hr]; cbn.
    apply prepend_keeps. by apply complete_run_keeps.
Qed.

Lemma complete_keeps {A} (I : world -> Prop) (net : request -> fetch_outcome)
    (m : M A) (w : world) :
  keeps I m -> I w -> I (out_world (complete net m w)).
Proof.
  intros Hm Hw. unfold complete.
  pose proof (complete_outcome_keeps I net (m w) (Hm w Hw)) as H.
  by destruct (complete_outcome net (m w)) as [r w' l], H.
Qed.

Section LoopInvariant.

Variable br : browser.
Variable I : world -> Prop.
Hypothesis listeners_keep : forall f, keeps I (run_listener br f).
Hypothesis handlers_keep : forall h, keeps I (run_handler h).
Hypothesis wiring_keeps : keeps I (on_DOMContentLoaded).

Lemma click_keeps (fs : list listener) (c : config) :
  config_keeps I c ->
  config_keeps I (foldl (fun c f => spawn (run_listener br f) c) c fs).
Proof.
  revert c. induction fs as [|f fs IH]; intros c Hc; cbn; [done|].
  apply IH, spawn_keeps; [apply listeners_keep|done].
Qed.

Lemma step_keeps (c : config) (e : event) :
  config_keeps I c -> config_keeps I (step br c e).
Proof.
  intros Hc. destruct e as [|id|s h|i o]; cbn.
  - by apply spawn_keeps.
  - destruct (document (cfg_world c) !! id); [|done]. by apply click_keeps.
  - destruct (sessions (cfg_world c) !! s); [|done].
    case_bool_decide; [|done]. by apply spawn_keeps.
  - destruct (pending c !! i) as [[p k]|] eqn:Hi; [|done].
    destruct (settle_with o p) as [s|]; [|done].
    destruct Hc as [Hw Hp].
    apply absorb_keeps; [by apply Forall_delete|].
    apply (Forall_lookup_1 _ _ _ _ Hp Hi); done.
Qed.

Lemma steps_keeps (es : list event) (c : config) :
  config_keeps I c -> config_keeps I (steps br c es).
Proof.
  revert c. induction es as [|e es IH]; intros c Hc; cbn; [done|].
  apply IH, step_keeps, Hc.
Qed.

Lemma boot_keeps (page : gmap string element) (href : string) (es : list event) :
  I (initial_world page href) ->
  I (cfg_world (steps br (boot page href) es)).
Proof. intros H0. apply steps_keeps. split; [done|constructor]. Qed.

End LoopInvariant.

(** Follows the shape of a computation; [tac] shows that a state update
    keeps the invariant. *)
Ltac keeps_step_with tac :=
  lazymatch goal with
  | |- keeps _ (bind _ _) => apply bind_keeps; [|intros]
  | |- keeps _ (try_catch _ _) => apply try_catch_keeps; [|intros]
  | |- keeps _ (ret _) => apply ret_keeps
  | |- keeps _ (throw _) => apply throw_keeps
  | |- keeps _ (gets _) => apply gets_keeps
  | |- keeps _ (emit _) => apply emit_keeps
  | |- keeps _ (await _) => apply await_keeps
  | |- keeps _ (deref _) => apply deref_keeps
  | |- keeps _ (json _) => unfold json
  | |- keeps _ (get_property _ _) => unfold get_property
  | |- keeps _ (modify _) => apply modify_keeps; tac
  | |- keeps _ (match ?x with _ => _ end) => destruct x
  end.

Ltac keeps_with tac := unfold_script; repeat keeps_step_with tac.

(** *** Recognizers are configured and the reference is valid *)

Ltac same_sessions :=
  let HI := fresh in
  intros ? HI; first [exact HI | split; [exact (proj1 HI) | by cbn]].

Lemma startRecognition_well_formed br : keeps sessions_well_formed (startRecognition br).
Proof.
  intros w [Hc Hr].
  destruct (listening w) eqn:Hl.
  - unfold startRecognition. exec. rewrite Hl. by split.
  - destruct (supported br) eqn:Hs.
    + eapply returns_keeps; [by apply startRecognition_run|].
      split; cbn.
      * apply Forall_app. split; [done|]. apply Forall_singleton. eauto.
      * intros s [= <-]. rewrite length_app. cbn. lia.
    + unfold startRecognition. exec. rewrite Hl.
      unfold supported in Hs.
      destruct (has_webkitSpeechRecognition br), (has_SpeechRecognition br);
        try discriminate. by split.
Qed.

Lemma stopAll_well_formed br : keeps sessions_well_formed (stopAll br).
Proof. unfold stopAll. keeps_with same_sessions. Qed.

Lemma resetUI_well_formed br : keeps sessions_well_formed (resetUI br).
Proof.
  unfold resetUI. apply bind_keeps; [apply stopAll_well_formed|intros].
  keeps_with same_sessions.
Qed.

Lemma logout_well_formed : keeps sessions_well_formed logout.
Proof. unfold logout. keeps_with same_sessions. Qed.

Lemma wiring_well_formed : keeps sessions_well_formed on_DOMContentLoaded.
Proof. unfold on_DOMContentLoaded. keeps_with same_sessions. Qed.

Lemma handlers_well_formed h : keeps sessions_well_formed (run_handler h).
Proof.
  destruct h; cbn; [unfold onstart|unfold onresult, speak|unfold onerror|unfold onend];
    keeps_with same_sessions.
Qed.

(** X1.  In every state the page can reach, every recognizer constructed so
    far has the configuration that [startRecognition] gives it ([en-US], final
    results only, one alternative, all four handlers), and the session
    reference, when not null, refers to one of them. *)
Theorem recognizers_configured (br : browser) (w : world) :
  reachable br w ->
  Forall (fun r => exists c, r = configured c) (sessions w) /\
  forall s, recognition w = Some s -> exists c, sessions w !! s = Some (configured c).
Proof.
  intros (page & href & es & <-).
  assert (H : sessions_well_formed (cfg_world (steps br (boot page href) es))).
  { apply boot_keeps.
    - intros []; cbn; [apply startRecognition_well_formed | apply stopAll_well_formed
                       | apply resetUI_well_formed | apply logout_well_formed].
    - apply handlers_well_formed.
    - apply wiring_well_formed.
    - split; [constructor|]. intros s. by cbn. }
  destruct H as [Hc Hr]. split; [done|].
  intros s Hs. apply Hr in Hs.
  destruct (lookup_lt_is_Some_2 _ _ Hs) as [r Hlook].
  rewrite Hlook.
  destruct (Forall_lookup_1 _ _ _ _ Hc Hlook) as [c ->]. eauto.
Qed.

(** *** The microphone label follows the flag *)

Lemma onstart_run (w : world) :
  onstart w =
    Out (Return tt)
      (with_document (alter (with_textContent listening_label) "micBtn" (document w))
         (with_listening true w)) [].
Proof.
  unfold onstart. exec.
  destruct (document w !! "micBtn") eqn:Hm; cbn; [done|].
  by rewrite alter_absent.
Qed.

Lemma lookup_alter_textContent (f : element -> element) (ref id : string)
    (d : gmap string element) (e : element) :
  (forall x, textContent (f x) = textContent x) ->
  alter f ref d !! id = Some e ->
  exists e', d !! id = Some e' /\ textContent e = textContent e'.
Proof.
  intros Hf. destruct (decide (ref = id)) as [<-|Hne].
  - rewrite lookup_alter_eq. destruct (d !! ref) as [x|]; cbn; [|done].
    intros [= <-]. eauto.
  - rewrite lookup_alter_ne by done. eauto.
Qed.

Ltac same_label :=
  let HI := fresh in
  let Hl := fresh in
  let Hm := fresh in
  intros ? HI;
  first
    [ exact HI
    | by intros Hl
    | intros Hl ? Hm; cbn in Hl, Hm;
      apply lookup_alter_textContent in Hm as (? & Hm & ->); [|done];
      by apply HI ].

Lemma startRecognition_label br : keeps label_follows_flag (startRecognition br).
Proof. unfold startRecognition. keeps_with same_label. Qed.

Lemma stopAll_label br : keeps label_follows_flag (stopAll br).
Proof.
  intros w _. eapply returns_keeps; [apply stopAll_run|]. by intros Hl.
Qed.

Lemma resetUI_label br : keeps label_follows_flag (resetUI br).
Proof.
  unfold resetUI. apply bind_keeps; [apply stopAll_label|intros].
  keeps_with same_label.
Qed.

Lemma logout_label : keeps label_follows_flag logout.
Proof. unfold logout. keeps_with same_label. Qed.

Lemma wiring_label : keeps label_follows_flag on_DOMContentLoaded.
Proof. unfold on_DOMContentLoaded. keeps_with same_label. Qed.

Lemma handlers_label h : keeps label_follows_flag (run_handler h).
Proof.
  destruct h as [|ev|e|]; cbn.
  - intros w _. eapply returns_keeps; [apply onstart_run|].
    intros _ e. cbn. rewrite lookup_alter_eq.
    destruct (document w !! "micBtn"); cbn; [|done]. by intros [= <-].
  - unfold onresult, speak. keeps_with same_label.
  - intros w _. eapply returns_keeps; [apply onerror_run|]. by intros Hl.
  - intros w _. eapply returns_keeps; [apply onend_run|]. by intros Hl.
Qed.

(** X2.  In every state the page can reach, while [listening] is true the
    microphone button, if the page has one, shows the listening label. *)
Theorem listening_shows_on_button (br : browser) (w : world) (e : element) :
  reachable br w ->
  listening w = true ->
  document w !! "micBtn" = Some e ->
  textContent e = listening_label.
Proof.
  intros (page & href & es & <-) Hl He.
  revert Hl e He. apply boot_keeps.
  - intros []; cbn; [apply startRecognition_label | apply stopAll_label
                     | apply resetUI_label | apply logout_label].
  - apply handlers_label.
  - apply wiring_label.
  - by intros Hl.
Qed.

(** *** At most one utterance is queued *)

Lemma speak_one_utterance text : keeps one_utterance (speak text).
Proof.
  intros w Hw. unfold speak, new_SpeechSynthesisUtterance.
  destruct (truthy text); cbn; [|by split].
  destruct (ToString_throws text); exec; (split; [|done]);
    unfold one_utterance; cbn; lia.
Qed.

Ltac same_queue :=
  let HI := fresh in
  intros ? HI; first [exact HI | unfold one_utterance; cbn; lia].

Ltac keeps_queue :=
  unfold_script;
  repeat first [apply speak_one_utterance | keeps_step_with same_queue].

Lemma listeners_one_utterance br f : keeps one_utterance (run_listener br f).
Proof.
  destruct f; cbn;
    [unfold startRecognition|unfold stopAll|unfold resetUI, stopAll|unfold logout];
    keeps_queue.
Qed.

Lemma handlers_one_utterance h : keeps one_utterance (run_handler h).
Proof.
  destruct h; cbn; [unfold onstart|unfold onresult|unfold onerror|unfold onend];
    keeps_queue.
Qed.

Lemma wiring_one_utterance : keeps one_utterance on_DOMContentLoaded.
Proof. unfold on_DOMContentLoaded. keeps_queue. Qed.

(** X3.  In every state the page can reach, the script has left at most one
    utterance in the speech queue. *)
Theorem speech_queue_at_most_one (br : browser) (w : world) :
  reachable br w -> List.length (speech_queue w) <= 1.
Proof.
  intros (page & href & es & <-).
  apply (boot_keeps br one_utterance).
  - apply listeners_one_utterance.
  - apply handlers_one_utterance.
  - apply wiring_one_utterance.
  - unfold one_utterance. cbn. lia.
Qed.

(** *** The page only ever navigates to [/login] *)

Ltac same_location :=
  let HI := fresh in
  intros ? HI; first [exact HI | by right].

Lemma listeners_location br href f : keeps (here_or_login href) (run_listener br f).
Proof.
  destruct f; cbn;
    [unfold startRecognition|unfold stopAll|unfold resetUI, stopAll|unfold logout];
    keeps_with same_location.
Qed.

Lemma handlers_location href h : keeps (here_or_login href) (run_handler h).
Proof.
  destruct h; cbn; [unfold onstart|unfold onresult, speak|unfold onerror|unfold onend];
    keeps_with same_location.
Qed.

Lemma wiring_location href : keeps (here_or_login href) on_DOMContentLoaded.
Proof. unfold on_DOMContentLoaded. keeps_with same_location. Qed.

(** X4.  Whatever happens on the page, its location is the one it was
    loaded with or [/login]. *)
Theorem navigation_only_to_login (br : browser) (page : gmap string element)
    (href : string) (es : list event) :
  let w := cfg_world (steps br (boot page href) es) in
  location_href w = href \/ location_href w = "/login".
Proof.
  apply (boot_keeps br (here_or_login href)).
  - apply listeners_location.
  - apply handlers_location.
  - apply wiring_location.
  - by left.
Qed.

(** ** Wiring *)

Lemma wiring_run (w : world) :
  on_DOMContentLoaded w = Out (Return tt) (with_document (wired (document w)) w) [].
Proof.
  unfold on_DOMContentLoaded, wired. exec.
  destruct w as [r l d ss q h]; cbn.
  destruct (d !! "micBtn") eqn:H1; cbn.
  all: rewrite ?lookup_alter_ne by done.
  all: destruct (d !! "stopBtn") eqn:H2; cbn.
  all: rewrite ?lookup_alter_ne by done.
  all: destruct (d !! "resetBtn") eqn:H3; cbn.
  all: rewrite ?lookup_alter_ne by done.
  all: destruct (d !! "logoutBtn") eqn:H4; cbn.
  all: rewrite ?(alter_absent _ "micBtn" d) by done.
  all: rewrite ?(alter_absent _ "stopBtn") by (by rewrite ?lookup_alter_ne).
  all: rewrite ?(alter_absent _ "resetBtn") by (by rewrite ?lookup_alter_ne).
  all: rewrite ?(alter_absent _ "logoutBtn") by (by rewrite ?lookup_alter_ne).
  all: try done.
Qed.

Lemma wired_lookup (d : gmap string element) (id : string) :
  wired d !! id = wire id <$> d !! id.
Proof.
  unfold wired, wire, button_function.
  destruct (String.eqb_spec id "micBtn") as [->|H1].
  { by rewrite !lookup_alter_ne, lookup_alter_eq by done. }
  destruct (String.eqb_spec id "stopBtn") as [->|H2].
  { by rewrite !lookup_alter_ne, lookup_alter_eq, lookup_alter_ne by done. }
  destruct (String.eqb_spec id "resetBtn") as [->|H3].
  { by rewrite lookup_alter_ne, lookup_alter_eq, !lookup_alter_ne by done. }
  destruct (String.eqb_spec id "logoutBtn") as [->|H4].
  { by rewrite lookup_alter_eq, !lookup_alter_ne by done. }
  rewrite !lookup_alter_ne by done. by destruct (d !! id).
Qed.

Lemma with_listener_twice (f : listener) (e : element) :
  with_listener f (with_listener f e) = with_listener f e.
Proof.
  unfold with_listener; cbn.
  destruct (bool_decide (f ∈ click_listeners e)) eqn:Hf; cbn.
  - by rewrite Hf.
  - rewrite bool_decide_eq_true_2; [done|]. apply elem_of_app. right. by left.
Qed.

Lemma wire_twice (id : string) (e : element) : wire id (wire id e) = wire id e.
Proof. unfold wire. destruct (button_function id); [apply with_listener_twice|done]. Qed.

Lemma wired_twice (d : gmap string element) : wired (wired d) = wired d.
Proof.
  apply map_eq. intros id. rewrite !wired_lookup.
  destruct (d !! id); cbn; [by rewrite wire_twice|done].
Qed.

(** X5.  The [DOMContentLoaded] listener returns normally on every page and
    asks nothing of the browser.  Afterwards each of the four buttons the page
    has carries its function as a click listener; labels, values, elements
    other than the four buttons and the rest of the state are as before; and
    running the listener again changes nothing. *)
Theorem wiring_total_idempotent (w : world) :
  exists w',
    on_DOMContentLoaded w = Out (Return tt) w' [] /\
    on_DOMContentLoaded w' = Out (Return tt) w' [] /\
    (forall id f e', button_function id = Some f ->
       document w' !! id = Some e' -> f ∈ click_listeners e') /\
    (forall id, textContent <$> (document w' !! id) = textContent <$> (document w !! id)) /\
    (forall id, value <$> (document w' !! id) = value <$> (document w !! id)) /\
    (forall id, button_function id = None -> document w' !! id = document w !! id) /\
    recognition w' = recognition w /\ listening w' = listening w /\
    sessions w' = sessions w /\ speech_queue w' = speech_queue w /\
    location_href w' = location_href w.
Proof.
  exists (with_document (wired (document w)) w).
  split; [apply wiring_run|].
  split; [rewrite wiring_run; cbn; by rewrite wired_twice|].
  cbn. repeat split.
  - intros id f e' Hf. rewrite wired_lookup. unfold wire. rewrite Hf.
    destruct (document w !! id) as [e|]; cbn; [|done]. intros [= <-].
    cbn. case_bool_decide; [done|]. apply elem_of_app. right. by left.
  - intros id. rewrite wired_lookup. unfold wire.
    destruct (document w !! id), (button_function id); done.
  - intros id. rewrite wired_lookup. unfold wire.
    destruct (document w !! id), (button_function id); done.
  - intros id Hn. rewrite wired_lookup. unfold wire. rewrite Hn.
    by destruct (document w !! id).
Qed.

(** X6.  Once the page is wired, a click on one of the four buttons, present
    and without listeners before, runs the function of that button, once. *)
Theorem click_after_wiring (br : browser) (c : config) (id : string) (f : listener)
    (e : element) :
  button_function id = Some f ->
  document (cfg_world c) !! id = Some e ->
  click_listeners e = [] ->
  step br (step br c DOMContentLoaded) (Click id)
    = spawn (run_listener br f) (step br c DOMContentLoaded).
Proof.
  intros Hf He Hl. cbn. unfold spawn at 1 3. rewrite wiring_run. cbn.
  rewrite wired_lookup, He. cbn. unfold wire. rewrite Hf. cbn.
  rewrite Hl. cbn. unfold spawn. rewrite wiring_run. done.
Qed.

(** ** Starting a session *)

(** X7.  In a browser with a recognition constructor, a call to
    [startRecognition] made while [listening] is false constructs one
    recognizer, with the standard constructor if there is one and the prefixed
    one otherwise, configures it, stores the reference and starts it.  The
    call does not raise [listening] and leaves the page, the speech queue and
    the location alone. *)
Theorem startRecognition_constructs_one (br : browser) (w : world) :
  listening w = false ->
  supported br = true ->
  let n := List.length (sessions w) in
  let c := if has_SpeechRecognition br then StandardCtor else WebkitCtor in
  exists w',
    startRecognition br w = Out (Return tt) w' [ENewRecognizer c n; ERecStart n] /\
    sessions w' = sessions w ++ [configured c] /\
    recognition w' = Some n /\
    listening w' = false /\
    document w' = document w /\
    speech_queue w' = speech_queue w /\
    location_href w' = location_href w.
Proof.
  intros Hl Hs n c. eexists. split; [by apply startRecognition_run|].
  by cbn.
Qed.

Lemma startRecognition_constructs_one_witness :
  listening sample_world = false /\
  supported chrome = true /\
  exists w',
    startRecognition chrome sample_world
      = Out (Return tt) w' [ENewRecognizer WebkitCtor 0; ERecStart 0] /\
    sessions w' = [configured WebkitCtor] /\
    recognition w' = Some 0.
Proof.
  split; [reflexivity|]. split; [reflexivity|].
  destruct (startRecognition_constructs_one chrome sample_world eq_refl eq_refl)
    as (w' & Hrun & Hs & Hr & _).
  exists w'. split; [exact Hrun|]. split; [exact Hs|exact Hr].
Defined.

(** X8.  [stopAll] after [startRecognition] asks the recognizer just
    constructed to stop (or logs the failure of that request) and cancels
    speech; the reference is null afterwards and the recognizer object stays
    as configured. *)
Theorem stopAll_after_startRecognition (br : browser) (w : world) :
  listening w = false ->
  supported br = true ->
  let n := List.length (sessions w) in
  let c := if has_SpeechRecognition br then StandardCtor else WebkitCtor in
  exists w',
    bind (startRecognition br) (fun _ => stopAll br) w
      = Out (Return tt) w'
          [ENewRecognizer c n; ERecStart n;
           if stop_throws br n then EConsoleWarn InvalidStateError else ERecStop n;
           ESynthCancel] /\
    recognition w' = None /\
    listening w' = false /\
    sessions w' = sessions w ++ [configured c].
Proof.
  intros Hl Hs n c. eexists. split.
  - unfold bind. rewrite startRecognition_run by done.
    cbn [bind_outcome bind_run]. rewrite stopAll_run. reflexivity.
  - by cbn.
Qed.

Lemma stopAll_after_startRecognition_witness :
  listening sample_world = false /\
  supported chrome = true /\
  exists w',
    bind (startRecognition chrome) (fun _ => stopAll chrome) sample_world
      = Out (Return tt) w'
          [ENewRecognizer WebkitCtor 0; ERecStart 0; ERecStop 0; ESynthCancel] /\
    recognition w' = None /\
    sessions w' = [configured WebkitCtor].
Proof.
  split; [reflexivity|]. split; [reflexivity|].
  destruct (stopAll_after_startRecognition chrome sample_world eq_refl eq_refl)
    as (w' & Hrun & Hr & _ & Hs).
  exists w'. split; [exact Hrun|]. split; [exact Hr|exact Hs].
Defined.

(** ** Recognition events reach their handlers *)

Lemma configured_has_handler (c : rec_ctor) (h : rec_event) :
  handler_of h ∈ handlers (configured c).
Proof.
  destruct h; cbn; repeat first [by left | right].
Qed.

Lemma recognition_event_step (br : browser) (page : gmap string element) (href : string)
    (es : list event) (s : nat) (h : rec_event) :
  let c := steps br (boot page href) es in
  s < List.length (sessions (cfg_world c)) ->
  step br c (Recognition s h) = spawn (run_handler h) c.
Proof.
  intros c Hs.
  assert (H : sessions_well_formed (cfg_world c)).
  { apply boot_keeps.
    - intros []; cbn; [apply startRecognition_well_formed | apply stopAll_well_formed
                       | apply resetUI_well_formed | apply logout_well_formed].
    - apply handlers_well_formed.
    - apply wiring_well_formed.
    - split; [constructor|]. intros ?. by cbn. }
  destruct H as [Hc _]. cbn.
  destruct (lookup_lt_is_Some_2 _ _ Hs) as [r Hlook]. rewrite Hlook.
  destruct (Forall_lookup_1 _ _ _ _ Hc Hlook) as [ct ->].
  rewrite bool_decide_eq_true_2; [done|]. apply configured_has_handler.
Qed.

(** X9.  An event on a recognizer the page has constructed reaches its
    handler: [start] raises [listening] and shows the listening label; [end]
    and [error] lower [listening] and show the idle label. *)
Theorem recognition_lifecycle_labels (br : browser) (page : gmap string element)
    (href : string) (es : list event) (s : nat) (err : string) :
  let c := steps br (boot page href) es in
  s < List.length (sessions (cfg_world c)) ->
  let mic c' := textContent <$> (document (cfg_world c') !! "micBtn") in
  let present (l : string) := (fun _ => l) <$> (document (cfg_world c) !! "micBtn") in
  (listening (cfg_world (step br c (Recognition s Started))) = true /\
   mic (step br c (Recognition s Started)) = present listening_label) /\
  (listening (cfg_world (step br c (Recognition s Ended))) = false /\
   mic (step br c (Recognition s Ended)) = present idle_label) /\
  (listening (cfg_world (step br c (Recognition s (Errored err)))) = false /\
   mic (step br c (Recognition s (Errored err))) = present idle_label).
Proof.
  intros c Hs mic present. subst mic present.
  rewrite !(recognition_event_step br page href es s) by done.
  fold c. unfold spawn. cbn [run_handler].
  rewrite onstart_run, onend_run, onerror_run. cbn.
  rewrite !lookup_alter_eq.
  by destruct (document (cfg_world c) !! "micBtn").
Qed.

Lemma recognition_lifecycle_labels_witness :
  let c := steps chrome (boot sample_page "/") [DOMContentLoaded; Click "micBtn"] in
  0 < List.length (sessions (cfg_world c)) /\
  listening (cfg_world (step chrome c (Recognition 0 Started))) = true /\
  textContent <$> (document (cfg_world (step chrome c (Recognition 0 Started))) !! "micBtn")
    = Some listening_label.
Proof.
  split; [vm_compute; lia|].
  destruct (recognition_lifecycle_labels chrome sample_page "/"
              [DOMContentLoaded; Click "micBtn"] 0 "" ltac:(vm_compute; lia))
    as [[Hl Hm] _].
  split; [exact Hl|]. rewrite Hm. reflexivity.
Defined.

(** ** [resetUI] and the network *)

(** X10.  Whatever becomes of [POST /reset], [resetUI] leaves the state that
    [stopAll] and the emptying of the two fields produced and has made that one
    request; it returns when the request is answered, ends with the rejection
    when the request is rejected, and stays suspended while it is unanswered. *)
Theorem resetUI_whatever_the_network (br : browser) (net : request -> fetch_outcome)
    (w : world) :
  let o := complete net (resetUI br) w in
  out_world o = cleared (stopped w) /\
  out_log o = stop_effects br w ++ [EFetch reset_request] /\
  match net reset_request with
  | Responds _ => out_run o = Return tt
  | Fails e => out_run o = Throw e
  | Hangs => awaits (AFetch reset_request) (out_run o)
  end.
Proof.
  unfold complete. destruct (resetUI_run br w) as [k Hk].
  assert (Hk' : forall s w', k s w' =
            match s with
            | Fulfilled _ => Out (Return tt) w' []
            | Rejected e => Out (Throw e) w' []
            end).
  { intros s w'. revert Hk. unfold resetUI, bind. rewrite stopAll_run. exec.
    destruct (match alter (with_textContent idle_label) "micBtn" (document w) !! "userText"
              with Some _ => Some "userText" | None => None end);
      destruct (match alter (with_textContent idle_label) "micBtn" (document w) !! "botText"
                with Some _ => Some "botText" | None => None end);
      cbn; intros [= <-]; by destruct s. }
  rewrite Hk. cbn. fold reset_request.
  destruct (net reset_request) as [r|e|]; cbn; rewrite ?Hk'; cbn;
    rewrite ?app_nil_r; done.
Qed.

(** ** [recognition.onresult]: failures, frame, late answers *)

(** X11.  When the request to [/ask] is rejected, or its answer is not JSON
    or is [null], the result handler ends with that exception: the transcript is
    in [userText], the bot text is untouched and nothing is spoken. *)
Theorem onresult_failed_exchange
    (net : request -> fetch_outcome) (ev : result_event)
    (r0 : list alternative) (a0 : alternative) (w : world) (uel : element) (e : exn) :
  results ev !! 0 = Some r0 ->
  r0 !! 0 = Some a0 ->
  document w !! "userText" = Some uel ->
  let req := ask_request (transcript a0) (email_of w) in
  exchange_failure (net req) = Some e ->
  complete net (onresult ev) w =
    Out (Throw e)
      (with_document (alter (with_value (transcript a0)) "userText" (document w)) w)
      [EFetch req].
Proof.
  intros H0 H1 Hu req. subst req. unfold email_of, exchange_failure.
  unfold complete, onresult. exec.
  rewrite H0; cbn. rewrite H1; cbn. rewrite Hu; cbn.
  rewrite lookup_alter_ne by done.
  destruct (document w !! "emailField") as [el|] eqn:He; cbn;
    [rewrite lookup_alter_ne by done; rewrite He|].
  all: destruct (net _) as [resp|e'|]; cbn; [|by intros [= ->]|done].
  all: destruct (json_body resp) as [out|]; cbn; [|by intros [= <-]].
  all: unfold get_property.
  all: by destruct out; cbn; intros [= <-].
Qed.

Lemma onresult_failed_exchange_witness :
  exchange_failure (network_down (ask_request "book a room" "ana@example.org"))
    = Some NetworkError /\
  let o := complete network_down (onresult book_a_room) sample_world in
  out_run o = Throw NetworkError /\
  value <$> (document (out_world o) !! "userText") = Some "book a room" /\
  value <$> (document (out_world o) !! "botText") = Some "" /\
  speech_queue (out_world o) = [].
Proof.
  split; [reflexivity|].
  cbv zeta.
  rewrite (onresult_failed_exchange network_down book_a_room
             [ {| transcript := "book a room" |} ] {| transcript := "book a room" |}
             sample_world blank NetworkError eq_refl eq_refl eq_refl eq_refl).
  repeat split.
Defined.

Lemma alter_with_value_frame (v ref id : string) (d : gmap string element) :
  textContent <$> (alter (with_value v) ref d !! id) = textContent <$> (d !! id) /\
  click_listeners <$> (alter (with_value v) ref d !! id) = click_listeners <$> (d !! id).
Proof.
  destruct (decide (ref = id)) as [<-|Hne].
  - rewrite lookup_alter_eq. by destruct (d !! ref).
  - by rewrite lookup_alter_ne.
Qed.

Ltac same_controller :=
  let HI := fresh in
  intros ? HI;
  first
    [ exact HI
    | destruct HI as (? & ? & ? & ? & Ht & Hc); repeat split; try done;
      intros id; cbn; [rewrite <- Ht|rewrite <- Hc]; apply alter_with_value_frame ].

Lemma onresult_controller (w0 : world) (ev : result_event) :
  keeps (controller_as_in w0) (onresult ev).
Proof. unfold onresult, speak. keeps_with same_controller. Qed.

(** X12.  The result handler, on every event, page and network, leaves the
    session reference, [listening], the recognizers, the location and every
    label and click listener as they were. *)
Theorem onresult_leaves_controller_alone
    (net : request -> fetch_outcome) (ev : result_event) (w : world) :
  let w' := out_world (complete net (onresult ev) w) in
  recognition w' = recognition w /\
  listening w' = listening w /\
  sessions w' = sessions w /\
  location_href w' = location_href w /\
  (forall id, textContent <$> (document w' !! id) = textContent <$> (document w !! id)) /\
  (forall id, click_listeners <$> (document w' !! id)
              = click_listeners <$> (document w !! id)).
Proof.
  apply (complete_keeps (controller_as_in w) net (onresult ev) w).
  - apply onresult_controller.
  - by repeat split.
Qed.

(** X13.  The result handler suspends at its request; whatever state the
    page is in when the answer arrives (after [stopAll] or [resetUI], for
    instance), a [reply] that is a non-empty string, or the fallback for an
    absent or falsy [reply], is written to [botText] of that state and
    spoken. *)
Theorem late_answer_is_rendered
    (net : request -> fetch_outcome) (ev : result_event)
    (r0 : list alternative) (a0 : alternative) (w : world) (uel : element) :
  results ev !! 0 = Some r0 ->
  r0 !! 0 = Some a0 ->
  document w !! "userText" = Some uel ->
  let req := ask_request (transcript a0) (email_of w) in
  exists k,
    onresult ev w =
      Out (Await (AFetch req) k)
        (with_document (alter (with_value (transcript a0)) "userText" (document w)) w)
        [EFetch req] /\
    forall (w' : world) resp out bel,
      json_body resp = Some out ->
      nullish out = false ->
      document w' !! "botText" = Some bel ->
      let resumed := complete_outcome net (k (Fulfilled (VResponse resp)) w') in
      let rendered (text : string) :=
        Out (Return tt)
          (with_speech_queue [ {| utt_text := text; rate := 1 |} ]
             (with_document (alter (with_value text) "botText" (document w')) w'))
          [ESynthCancel; ESynthSpeak {| utt_text := text; rate := 1 |}] in
      (forall s, reply_of out = JStr s -> s <> "" -> resumed = rendered s) /\
      (truthy (reply_of out) = false -> resumed = rendered fallback_reply).
Proof.
  intros H0 H1 Hu req. subst req. unfold email_of.
  unfold onresult. exec.
  rewrite H0; cbn. rewrite H1; cbn. rewrite Hu; cbn.
  rewrite lookup_alter_ne by done.
  destruct (document w !! "emailField") as [el|] eqn:He; cbn;
    [rewrite lookup_alter_ne by done; rewrite He|].
  all: eexists; (split; [reflexivity|]).
  all: intros w' resp out bel Hj Hnull Hb; cbn; rewrite Hj; cbn.
  all: unfold get_property.
  all: destruct out as [| |b|z|s|items|props]; try discriminate; cbn.
  all: rewrite ?Hb; cbn.
  all: unfold js_or, speak, new_SpeechSynthesisUtterance; cbn.
  all: try (destruct (own_property "reply" props) as [| |b|z|s|items|ps] eqn:Hr; cbn).
  all: try (destruct (String.eqb_spec s "") as [->|Hne]; cbn).
  all: repeat match goal with
         | |- context [if ?c then _ else _] => destruct c eqn:?; cbn
         end.
  all: rewrite ?Hb; cbn.
  all: exec; try done.
  all: try by destruct w'.
  all: split; [intros s' [= <-] Hne'; try done|intros Hf; try discriminate].
  all: try by destruct w'.
  all: exfalso; destruct (String.eqb_spec s ""); [done|discriminate].
Qed.

Lemma late_answer_is_rendered_witness :
  let resp := {| status := 200; json_body := Some (JObj [("reply", JStr "Room booked")]) |} in
  let w1 :=
    with_document (alter (with_value "book a room") "userText" (document sample_world))
      sample_world in
  exists k,
    onresult book_a_room sample_world
      = Out (Await (AFetch (ask_request "book a room" "ana@example.org")) k) w1
            [EFetch (ask_request "book a room" "ana@example.org")] /\
    let o := complete_outcome network_silent (k (Fulfilled (VResponse resp)) (stopped w1)) in
    value <$> (document (out_world o) !! "botText") = Some "Room booked" /\
    speech_queue (out_world o) = [ {| utt_text := "Room booked"; rate := 1 |} ].
Proof.
  intros resp w1.
  destruct (late_answer_is_rendered network_silent book_a_room
              [ {| transcript := "book a room" |} ] {| transcript := "book a room" |}
              sample_world blank eq_refl eq_refl eq_refl) as (k & Hk & Hres).
  exists k. split; [exact Hk|].
  cbv zeta.
  destruct (Hres (stopped w1) resp (JObj [("reply", JStr "Room booked")]) blank
              eq_refl eq_refl eq_refl) as [Hs _].
  rewrite (Hs "Room booked" eq_refl ltac:(discriminate)).
  split; reflexivity.
Defined.

(** ** [trim] *)

Lemma append_cons (a : ascii) (s t : string) :
  String.append (String a s) t = String a (String.append s t).
Proof. reflexivity. Qed.

Lemma drop_prefix_append (p s : string) : drop_prefix p (String.append p s) = Some s.
Proof.
  induction p as [|a p IH]; [done|].
  rewrite append_cons. simpl. by rewrite Ascii.eqb_refl.
Qed.

Lemma drop_prefix_Some (p s s' : string) :
  drop_prefix p s = Some s' -> s = String.append p s'.
Proof.
  revert s. induction p as [|a p IH]; intros s; simpl.
  - by intros [= ->].
  - destruct s as [|b s]; [done|].
    destruct (Ascii.eqb_spec a b) as [->|]; [|done].
    intros H. by rewrite append_cons, <- (IH _ H).
Qed.

Lemma drop_first_of_Some (ps : list string) (s s' : string) :
  drop_first_of ps s = Some s' -> exists p, p ∈ ps /\ s = String.append p s'.
Proof.
  induction ps as [|p ps IH]; cbn; [done|].
  destruct (drop_prefix p s) as [x|] eqn:Hp.
  - intros [= ->]. exists p. split; [by left|by apply drop_prefix_Some].
  - intros H. destruct (IH H) as (q & Hq & ->). exists q. split; [by right|done].
Qed.

Lemma drop_first_of_None (ps : list string) (s : string) (p : string) :
  drop_first_of ps s = None -> p ∈ ps -> drop_prefix p s = None.
Proof.
  induction ps as [|q ps IH]; cbn; [by intros _ ?%elem_of_nil|].
  destruct (drop_prefix q s) eqn:Hq; [done|].
  intros H [->|Hin]%elem_of_cons; [done|by apply IH].
Qed.

Lemma append_length (a b : string) :
  String.length (String.append a b) = String.length a + String.length b.
Proof.
  induction a as [|c a IH]; [done|]. rewrite append_cons. simpl. by rewrite IH.
Qed.

Lemma append_assoc (a b c : string) :
  String.append (String.append a b) c = String.append a (String.append b c).
Proof.
  induction a as [|x a IH]; [done|]. rewrite !append_cons. by rewrite IH.
Qed.

Section Strip.

Variable ps : list string.
Hypothesis nonempty : forall p, p ∈ ps -> p <> "".

Lemma strip_leading_spec (n : nat) (s : string) :
  String.length s <= n ->
  (exists pre, s = String.append pre (strip_leading ps n s)) /\
  drop_first_of ps (strip_leading ps n s) = None.
Proof.
  revert s. induction n as [|n IH]; intros s Hn; cbn.
  - destruct s; [|cbn in Hn; lia]. split; [by exists ""|].
    destruct (drop_first_of ps "") as [x|] eqn:Hd; [|done].
    destruct (drop_first_of_Some _ _ _ Hd) as (p & Hp & Heq).
    destruct p; [by apply nonempty in Hp|done].
  - destruct (drop_first_of ps s) as [s'|] eqn:Hd; [|split; [by exists ""|done]].
    destruct (drop_first_of_Some _ _ _ Hd) as (p & Hp & ->).
    assert (String.length p <> 0).
    { destruct p; [by apply nonempty in Hp|done]. }
    rewrite append_length in Hn.
    destruct (IH s') as [[pre Hpre] Hnone]; [lia|].
    split; [|done]. exists (String.append p pre).
    by rewrite append_assoc, <- Hpre.
Qed.

Lemma strip_leading_id (n : nat) (s : string) :
  drop_first_of ps s = None -> strip_leading ps n s = s.
Proof. intros H. destruct n; cbn; [done|]. by rewrite H. Qed.

End Strip.

Lemma list_ascii_append (a b : string) :
  list_ascii_of_string (String.append a b)
    = list_ascii_of_string a ++ list_ascii_of_string b.
Proof.
  induction a as [|x a IH]; [done|]. rewrite append_cons. simpl. by rewrite IH.
Qed.

Lemma string_of_list_app (l1 l2 : list ascii) :
  string_of_list_ascii (l1 ++ l2)
    = String.append (string_of_list_ascii l1) (string_of_list_ascii l2).
Proof.
  induction l1 as [|x l IH]; [done|]. simpl. by rewrite append_cons, IH.
Qed.

Lemma string_rev_append (a b : string) :
  string_rev (String.append a b) = String.append (string_rev b) (string_rev a).
Proof.
  unfold string_rev. by rewrite list_ascii_append, rev_app_distr, string_of_list_app.
Qed.

Lemma string_rev_involutive (s : string) : string_rev (string_rev s) = s.
Proof.
  unfold string_rev.
  by rewrite list_ascii_of_string_of_list_ascii, rev_involutive,
    string_of_list_ascii_of_string.
Qed.

Lemma string_rev_length (s : string) : String.length (string_rev s) = String.length s.
Proof.
  unfold string_rev. induction s as [|a s IH]; simpl; [done|].
  rewrite string_of_list_app, append_length, IH. simpl. lia.
Qed.

Lemma js_whitespace_nonempty (p : string) : p ∈ js_whitespace -> p <> "".
Proof.
  assert (H : Forall (fun p => p <> "") js_whitespace).
  { apply (bool_decide_unpack _). by vm_compute. }
  intros Hp. by apply (proj1 (Forall_forall _ _) H).
Qed.

Lemma rev_whitespace_nonempty (p : string) :
  p ∈ map string_rev js_whitespace -> p <> "".
Proof.
  intros (q & -> & Hq)%list_elem_of_fmap Hrev.
  apply (js_whitespace_nonempty q Hq).
  by rewrite <- (string_rev_involutive q), Hrev.
Qed.

(** X14.  The trimmed value that goes into the [email] of the request
    neither starts nor ends with white space, is a segment of the value, and
    is the value itself when that has no outer white space. *)
Theorem trim_removes_outer_whitespace (s : string) :
  starts_with_whitespace (trim s) = false /\
  ends_with_whitespace (trim s) = false /\
  (exists pre post, s = String.append pre (String.append (trim s) post)) /\
  (starts_with_whitespace s = false -> ends_with_whitespace s = false -> trim s = s).
Proof.
  unfold trim, trimEnd, trimStart, starts_with_whitespace, ends_with_whitespace.
  destruct (strip_leading_spec js_whitespace js_whitespace_nonempty
              (String.length s) s) as [[pre Hpre] Hstart]; [done|].
  set (t := strip_leading js_whitespace (String.length s) s) in *.
  destruct (strip_leading_spec (map string_rev js_whitespace) rev_whitespace_nonempty
              (String.length t) (string_rev t)) as [[post Hpost] Hend];
    [by rewrite string_rev_length|].
  set (u := strip_leading (map string_rev js_whitespace) (String.length t) (string_rev t))
    in *.
  assert (Ht : t = String.append (string_rev u) (string_rev post)).
  { by rewrite <- string_rev_append, <- Hpost, string_rev_involutive. }
  repeat split.
  - destruct (drop_first_of js_whitespace (string_rev u)) as [x|] eqn:Hd; [|done].
    destruct (drop_first_of_Some _ _ _ Hd) as (p & Hp & Heq).
    pose proof (drop_first_of_None _ _ p Hstart Hp) as Hnone.
    by rewrite Ht, Heq, append_assoc, drop_prefix_append in Hnone.
  - by rewrite string_rev_involutive, Hend.
  - exists pre, (string_rev post). by rewrite <- Ht.
  - intros Hs He.
    destruct (drop_first_of js_whitespace s) eqn:Hs'; [done|].
    destruct (drop_first_of (map string_rev js_whitespace) (string_rev s)) eqn:He';
      [done|].
    subst u t. rewrite (strip_leading_id _ _ s Hs').
    by rewrite (strip_leading_id _ _ _ He'), string_rev_involutive.
Qed.

(** ** [stopAll] when [stop()] throws *)

(** X15.  When [stop()] throws, [stopAll] logs the exception with
    [console.warn] and still releases the reference and cancels speech. *)
Theorem stopAll_logs_failed_stop (br : browser) (w : world) (s : nat) :
  recognition w = Some s ->
  stop_throws br s = true ->
  stopAll br w =
    Out (Return tt) (stopped w) [EConsoleWarn InvalidStateError; ESynthCancel] /\
  recognition (stopped w) = None /\
  speech_queue (stopped w) = [].
Proof.
  intros Hr Ht. rewrite stopAll_run. unfold stop_effects. by rewrite Hr, Ht.
Qed.

Lemma stopAll_logs_failed_stop_witness :
  let w := out_world (startRecognition stubborn sample_world) in
  recognition w = Some 0 /\
  stop_throws stubborn 0 = true /\
  stopAll stubborn w =
    Out (Return tt) (stopped w) [EConsoleWarn InvalidStateError; ESynthCancel].
Proof.
  split; [reflexivity|]. split; [reflexivity|].
  apply (stopAll_logs_failed_stop stubborn
           (out_world (startRecognition stubborn sample_world)) 0);
    reflexivity.
Defined.

(** ** What the script asks of the browser *)

Section Emits.

Context (P : effect -> Prop).

Lemma prepend_emits {A} (l : list effect) (o : outcome A) :
  Forall P l -> outcome_emits P o -> outcome_emits P (prepend l o).
Proof.
  destruct o as [r w l']. intros Hl [Hl' Hr]. split; [|done].
  apply Forall_app. by split.
Qed.

Lemma bind_run_emits {A B} (f : A -> M B) (Hf : forall a, emits P (f a)) (r : run A) :
  forall w, run_emits P r -> outcome_emits P (bind_run r f w)
with bind_outcome_emits {A B} (f : A -> M B) (Hf : forall a, emits P (f a))
    (o : outcome A) :
  outcome_emits P o -> outcome_emits P (bind_outcome o f).
Proof.
  - destruct r as [a|e|p k]; intros w Hr; cbn.
    + apply Hf.
    + by split.
    + split; [done|]. intros s w'. apply bind_outcome_emits; [done|]. apply Hr.
  - destruct o as [r w l]; intros [Hl Hr]; cbn.
    apply prepend_emits; [done|]. by apply bind_run_emits.
Qed.

Lemma bind_emits {A B} (m : M A) (f : A -> M B) :
  emits P m -> (forall a, emits P (f a)) -> emits P (bind m f).
Proof. intros Hm Hf w. apply bind_outcome_emits; [done|]. apply Hm. Qed.

Lemma catch_run_emits {A} (h : exn -> M A) (Hh : forall e, emits P (h e)) (r : run A) :
  forall w, run_emits P r -> outcome_emits P (catch_run r h w)
with catch_outcome_emits {A} (h : exn -> M A) (Hh : forall e, emits P (h e))
    (o : outcome A) :
  outcome_emits P o -> outcome_emits P (catch_outcome o h).
Proof.
  - destruct r as [a|e|p k]; intros w Hr; cbn.
    + by split.
    + apply Hh.
    + split; [done|]. intros s w'. apply catch_outcome_emits; [done|]. apply Hr.
  - destruct o as [r w l]; intros [Hl Hr]; cbn.
    apply prepend_emits; [done|]. by apply catch_run_emits.
Qed.

Lemma try_catch_emits {A} (m : M A) (h : exn -> M A) :
  emits P m -> (forall e, emits P (h e)) -> emits P (try_catch m h).
Proof. intros Hm Hh w. apply catch_outcome_emits; [done|]. apply Hm. Qed.

Lemma ret_emits {A} (a : A) : emits P (ret a).
Proof. by intros w; split. Qed.

Lemma throw_emits {A} (e : exn) : emits P (throw (A:=A) e).
Proof. by intros w; split. Qed.

Lemma gets_emits {A} (f : world -> A) : emits P (gets f).
Proof. by intros w; split. Qed.

Lemma modify_emits (f : world -> world) : emits P (modify f).
Proof. by intros w; split. Qed.

Lemma emit_emits (e : effect) : P e -> emits P (emit e).
Proof. intros He w. split; [|done]. by apply Forall_singleton. Qed.

Lemma await_emits (p : awaited) : emits P (await p).
Proof. intros w. split; [done|]. by intros [v|e] w'; split. Qed.

Lemma deref_emits {A} (o : option A) : emits P (deref o).
Proof. destruct o; [apply ret_emits | apply throw_emits]. Qed.

Hypothesis uncaught_allowed : forall e, P (EUncaught e).

Lemma absorb_emits (pend : list task) (tr : list effect) (o : outcome unit) :
  Forall P tr ->
  Forall (fun t : task => forall s w, outcome_emits P (t.2 s w)) pend ->
  outcome_emits P o ->
  config_emits P (absorb pend tr o).
Proof.
  intros Ht Hp. destruct o as [[[]|e|p k] w l]; intros [Hl Hr];
    unfold config_emits; cbn;
    rewrite ?Forall_app, ?Forall_singleton; repeat split; auto.
Qed.

Lemma spawn_emits (m : M unit) (c : config) :
  emits P m -> config_emits P c -> config_emits P (spawn m c).
Proof. intros Hm [Ht Hp]. apply absorb_emits; [done..|]. apply Hm. Qed.

Variable br : browser.
Hypothesis listeners_emit : forall f, emits P (run_listener br f).
Hypothesis handlers_emit : forall h, emits P (run_handler h).
Hypothesis wiring_emits : emits P on_DOMContentLoaded.

Lemma step_emits (c : config) (e : event) :
  config_emits P c -> config_emits P (step br c e).
Proof.
  intros Hc. destruct e as [|id|s h|i o]; cbn.
  - by apply spawn_emits.
  - destruct (document (cfg_world c) !! id) as [el|]; [|done].
    generalize (click_listeners el). intros fs. revert c Hc.
    induction fs as [|f fs IH]; intros c Hc; cbn; [done|].
    apply IH, spawn_emits; [apply listeners_emit|done].
  - destruct (sessions (cfg_world c) !! s); [|done].
    case_bool_decide; [|done]. by apply spawn_emits.
  - destruct (pending c !! i) as [[p k]|] eqn:Hi; [|done].
    destruct (settle_with o p) as [s|]; [|done].
    destruct Hc as [Ht Hp].
    apply absorb_emits; [done|by apply Forall_delete|].
    apply (Forall_lookup_1 _ _ _ _ Hp Hi).
Qed.

Lemma steps_emits (es : list event) (c : config) :
  config_emits P c -> config_emits P (steps br c es).
Proof.
  revert c. induction es as [|e es IH]; intros c Hc; cbn; [done|].
  apply IH, step_emits, Hc.
Qed.

End Emits.

Ltac emits_step :=
  lazymatch goal with
  | |- emits _ (bind _ _) => apply bind_emits; [|intros]
  | |- emits _ (try_catch _ _) => apply try_catch_emits; [|intros]
  | |- emits _ (ret _) => apply ret_emits
  | |- emits _ (throw _) => apply throw_emits
  | |- emits _ (gets _) => apply gets_emits
  | |- emits _ (modify _) => apply modify_emits
  | |- emits _ (await _) => apply await_emits
  | |- emits _ (deref _) => apply deref_emits
  | |- emits _ (json _) => unfold json
  | |- emits _ (get_property _ _) => unfold get_property
  | |- emits _ (emit _) => apply emit_emits; cbn; eauto
  | |- emits _ (match ?x with _ => _ end) => destruct x eqn:?
  end.

Ltac emits_auto := unfold_script; repeat emits_step.

Lemma listeners_documented br f : emits (documented br) (run_listener br f).
Proof.
  destruct f; cbn.
  - unfold startRecognition. destruct br as [[] [] t]; cbn; emits_auto.
  - unfold stopAll. emits_auto.
  - unfold resetUI, stopAll. emits_auto.
  - unfold logout. emits_auto.
Qed.

Lemma handlers_documented br h : emits (documented br) (run_handler h).
Proof.
  destruct h; cbn; [unfold onstart|unfold onresult, speak|unfold onerror|unfold onend];
    emits_auto.
Qed.

Lemma wiring_documented br : emits (documented br) on_DOMContentLoaded.
Proof. unfold on_DOMContentLoaded. emits_auto. Qed.

(** X16.  Everything the script ever asks of the browser is of these kinds:
    the three requests [POST /ask] with a JSON body of [message] and [email],
    [POST /reset] and [GET /logout]; navigation to [/login]; the alert, in a
    browser without recognition only; a recognizer of the chosen constructor,
    in a browser with recognition only; utterances of rate 1; the console and
    start, stop and cancel calls. *)
Theorem effects_are_documented (br : browser) (page : gmap string element)
    (href : string) (es : list event) :
  Forall (documented br) (trace (steps br (boot page href) es)).
Proof.
  apply (steps_emits (documented br)).
  - done.
  - apply listeners_documented.
  - apply handlers_documented.
  - apply wiring_documented.
  - by split.
Qed.

Lemma recognizers_configured_witness :
  reachable chrome listening_world /\
  Forall (fun r => exists c, r = configured c) (sessions listening_world) /\
  exists c, sessions listening_world !! 0 = Some (configured c).
Proof.
  assert (Hr : reachable chrome listening_world).
  { exists sample_page, "/", [DOMContentLoaded; Click "micBtn"; Recognition 0 Started].
    reflexivity. }
  destruct (recognizers_configured chrome listening_world Hr) as [Hc Hs].
  split; [exact Hr|]. split; [exact Hc|].
  apply (Hs 0). reflexivity.
Defined.

Lemma listening_shows_on_button_witness :
  let e := {| textContent := listening_label; value := "";
              click_listeners := [LstartRecognition] |} in
  reachable chrome listening_world /\
  listening listening_world = true /\
  document listening_world !! "micBtn" = Some e /\
  textContent e = listening_label.
Proof.
  intros e.
  assert (Hr : reachable chrome listening_world).
  { exists sample_page, "/", [DOMContentLoaded; Click "micBtn"; Recognition 0 Started].
    reflexivity. }
  split; [exact Hr|]. split; [reflexivity|]. split; [reflexivity|].
  apply (listening_shows_on_button chrome listening_world e Hr); reflexivity.
Defined.

Lemma speech_queue_at_most_one_witness :
  reachable chrome answered_world /\
  speech_queue answered_world = [ {| utt_text := "Room booked"; rate := 1 |} ] /\
  List.length (speech_queue answered_world) <= 1.
Proof.
  assert (Hr : reachable chrome answered_world).
  { exists sample_page, "/",
      [DOMContentLoaded; Click "micBtn"; Recognition 0 Started;
       Recognition 0 (Result book_a_room);
       Settle 0 (replies (JObj [("reply", JStr "Room booked")])
                   (ask_request "book a room" "ana@example.org"));
       Settle 0 Hangs].
    reflexivity. }
  split; [exact Hr|]. split; [vm_compute; reflexivity|].
  apply (speech_queue_at_most_one chrome answered_world Hr).
Defined.

Lemma click_after_wiring_witness :
  let c := boot sample_page "/" in
  button_function "stopBtn" = Some LstopAll /\
  document (cfg_world c) !! "stopBtn" = Some blank /\
  click_listeners blank = [] /\
  step chrome (step chrome c DOMContentLoaded) (Click "stopBtn")
    = spawn (stopAll chrome) (step chrome c DOMContentLoaded).
Proof.
  intros c.
  split; [reflexivity|]. split; [reflexivity|]. split; [reflexivity|].
  apply (click_after_wiring chrome c "stopBtn" LstopAll blank); reflexivity.
Defined.

(** X17.  [listening] rises with the [start] event, not with the call: a second
    call to [startRecognition] before that event constructs and starts a second
    recognizer and overwrites the reference with it. *)
Theorem startRecognition_again_before_start_event (br : browser) (w : world) :
  listening w = false ->
  supported br = true ->
  let n := List.length (sessions w) in
  let c := if has_SpeechRecognition br then StandardCtor else WebkitCtor in
  exists w',
    bind (startRecognition br) (fun _ => startRecognition br) w
      = Out (Return tt) w'
          [ENewRecognizer c n; ERecStart n; ENewRecognizer c (S n); ERecStart (S n)] /\
    sessions w' = sessions w ++ [configured c; configured c] /\
    recognition w' = Some (S n) /\
    listening w' = false.
Proof.
  intros Hl Hs n c. eexists. split.
  - unfold bind. rewrite startRecognition_run by done.
    cbn [bind_outcome bind_run]. rewrite startRecognition_run by done.
    cbn. rewrite length_app. cbn. rewrite Nat.add_1_r. reflexivity.
  - cbn. split; [by rewrite <- app_assoc|done].
Qed.

Lemma startRecognition_again_before_start_event_witness :
  listening sample_world = false /\
  supported chrome = true /\
  exists w',
    bind (startRecognition chrome) (fun _ => startRecognition chrome) sample_world
      = Out (Return tt) w'
          [ENewRecognizer WebkitCtor 0; ERecStart 0;
           ENewRecognizer WebkitCtor 1; ERecStart 1] /\
    recognition w' = Some 1.
Proof.
  split; [reflexivity|]. split; [reflexivity|].
  destruct (startRecognition_again_before_start_event chrome sample_world
              eq_refl eq_refl) as (w' & Hrun & _ & Hr & _).
  exists w'. split; [exact Hrun|exact Hr].
Defined.
